(** * Logistics dashboard: attribution and aggregation engine

    A shallow embedding of [src/dashboard.py] (a pandas/streamlit script)
    and the properties of its attribution rules and of its fleet, hub and
    vendor aggregations.

    Modelling conventions.
    - A CSV cell is a piece of text or the missing value that [read_csv]
      puts in an empty cell ([NaN]); columns are read as text columns.
    - A data frame is rectangular: a header (the column names) and rows;
      a row maps column names to cells and a column of the header that a
      row does not bind reads as [NaN] (short lines are padded).
    - [KeyError] is the one exception the modelled statements can raise;
      fallible code lives in the [result] monad.
    - Counts are natural numbers; a percentage is carried as an exact
      ratio or as one of the two IEEE specials that integer division by
      zero produces in numpy, and is rendered with one decimal. *)

From Stdlib Require Import QArith Qround Lqa.
From stdpp Require Import gmap strings list sorting pretty.

Close Scope Q_scope.
Open Scope string_scope.

(** ** Errors *)

Inductive error : Type :=
  | KeyError (k : string).

Inductive result (A : Type) : Type :=
  | Ok (a : A)
  | Err (e : error).
Arguments Ok {A} a.
Arguments Err {A} e.

Global Instance result_bind : MBind result := λ A B f m,
  match m with
  | Ok a => f a
  | Err e => Err e
  end.

Global Instance result_ret : MRet result := λ A a, Ok a.

Fixpoint mapM {A B} (f : A → result B) (l : list A) : result (list B) :=
  match l with
  | [] => Ok []
  | x :: l' => y ← f x; ys ← mapM f l'; Ok (y :: ys)
  end.

(** ** Cells, rows and frames *)

Inductive cell : Type :=
  | Str (s : string)
  | NaN.

Global Instance cell_eq_dec : EqDecision cell.
Proof. solve_decision. Defined.

(** Python's [str(v)] on a cell. *)
Definition str (c : cell) : string :=
  match c with
  | Str s => s
  | NaN => "nan"
  end.

(** [v == 'text'] for a cell against a string literal, and [!=]. *)
Definition cell_eqb_str (c : cell) (s : string) : bool :=
  match c with
  | Str t => bool_decide (t = s)
  | NaN => false
  end.
Definition cell_neb_str (c : cell) (s : string) : bool :=
  negb (cell_eqb_str c s).

(** Elementwise [==] of two columns: a missing value equals nothing. *)
Definition cell_eqb (a b : cell) : bool :=
  match a, b with
  | Str s, Str t => bool_decide (s = t)
  | _, _ => false
  end.

Abbreviation row := (gmap string cell).

Record frame : Type := Frame {
  columns : list string;
  rows : list row
}.

(** The value a row holds in a column of the header. *)
Definition at_col (r : row) (k : string) : cell := default NaN (r !! k).

(** [row[k]]: raises when the frame has no such column. *)
Definition getitem (cols : list string) (r : row) (k : string) : result cell :=
  if decide (k ∈ cols) then Ok (at_col r k) else Err (KeyError k).

(** [row.get(k, d)]: the default when the frame has no such column. *)
Definition get (cols : list string) (r : row) (k : string) (d : cell) : cell :=
  if decide (k ∈ cols) then at_col r k else d.

(** [df[k]] used only for its existence (the values are read per row). *)
Definition has_col (cols : list string) (k : string) : result unit :=
  if decide (k ∈ cols) then Ok () else Err (KeyError k).

(** ** Strings *)

(** Python's [needle in hay] on strings. *)
Fixpoint contains (needle hay : string) : bool :=
  if String.prefix needle hay then true
  else match hay with
       | EmptyString => false
       | String _ hay' => contains needle hay'
       end.

(** What [contains] decides: the needle occurs somewhere in the text. *)
Definition occurs (needle hay : string) : Prop :=
  ∃ pre post, hay = pre +:+ needle +:+ post.

(** ** Record attribution (lines 25-38) *)

Definition get_adhoc_owner (cols : list string) (r : row) : result string :=
  basis ← getitem cols r "actual_billing_basis" ;
  if cell_neb_str basis "Adhoc" then Ok "N/A"
  else
    let reason := str (get cols r "adhoc_trip_creation_reason" (Str "")) in
    Ok (if contains "VENDOR" reason then "Vendor Issue" else "Zepto Issue").

Definition vendor_cancel_codes : list string :=
  [ "PLANNED_VEHICLE_NOT_PROVIDED_BY_VENDOR"; "VEHICLE_UNAVAILABILITY";
    "PLANNED_VEHICLE_BREAKDOWN"; "TRANSPORT_VENDOR_ISSUE" ].

Definition get_cancel_owner (cols : list string) (r : row) : result string :=
  status ← getitem cols r "trip_status" ;
  if cell_neb_str status "CANCELLED" then Ok "N/A"
  else
    let code := str (get cols r "cancellation_reason_code" (Str "")) in
    Ok (if bool_decide (code ∈ vendor_cancel_codes)
        then "Vendor Issue" else "Zepto Issue").

(** ** The enriched frame (lines 18-47) *)

Record erow : Type := ERow {
  fields : row;
  vehicle_match : nat;
  adhoc_owner : string;
  cancel_owner : string
}.

Record eframe : Type := EFrame {
  ecolumns : list string;
  erows : list erow
}.

Fixpoint attach (rs : list row) (vm : list nat) (ao co : list string)
  : list erow :=
  match rs, vm, ao, co with
  | r :: rs', v :: vm', a :: ao', c :: co' =>
      ERow r v a c :: attach rs' vm' ao' co'
  | _, _, _, _ => []
  end.

(** [(planned == actual).astype(int)] on one row. *)
Definition match_of (r : row) : nat :=
  if cell_eqb (at_col r "planned_vehicle_type") (at_col r "actual_vehicle_type")
  then 1 else 0.

(** The body of [load_and_process_data] once the newest CSV is parsed into
    [df].  The date column is only converted (its values stay in the row);
    the conversion needs the column to exist. *)
Definition load_and_process_data (df : frame) : result eframe :=
  let cols := columns df in
  has_col cols "trip_date" ;;
  has_col cols "planned_vehicle_type" ;;
  has_col cols "actual_vehicle_type" ;;
  let vm := match_of <$> rows df in
  ao ← mapM (get_adhoc_owner cols) (rows df) ;
  co ← mapM (get_cancel_owner cols) (rows df) ;
  Ok (EFrame cols (attach (rows df) vm ao co)).

(** The labels as total functions of the row, for the frames on which the
    attribution does not raise. *)
Definition adhoc_label (cols : list string) (r : row) : string :=
  match get_adhoc_owner cols r with
  | Ok s => s
  | Err _ => ""
  end.

Definition cancel_label (cols : list string) (r : row) : string :=
  match get_cancel_owner cols r with
  | Ok s => s
  | Err _ => ""
  end.

Definition enrich (cols : list string) (r : row) : erow :=
  ERow r (match_of r) (adhoc_label cols r) (cancel_label cols r).

(** ** Percentages *)

(** The value of a rate before formatting. *)
Inductive fval : Type :=
  | Finite (q : Q)
  | FNaN
  | FInf.

(** Python's [a / b * 100 if b > 0 else 0] on two lengths. *)
Definition py_rate (a b : nat) : fval :=
  if bool_decide (0 < b)%nat
  then Finite (inject_Z (Z.of_nat a) / inject_Z (Z.of_nat b) * 100)%Q
  else Finite 0%Q.

(** numpy's [a / b] on two integer sums: no exception on a zero divisor. *)
Definition np_div (a b : nat) : fval :=
  match b, a with
  | 0, 0 => FNaN
  | 0, _ => FInf
  | _, _ => Finite (inject_Z (Z.of_nat a) / inject_Z (Z.of_nat b))%Q
  end.

Definition fmul (v : fval) (k : Q) : fval :=
  match v with
  | Finite q => Finite (q * k)%Q
  | FNaN => FNaN
  | FInf => FInf
  end.

(** [Series.mean()] of a column of integers: [NaN] on the empty column. *)
Definition mean (l : list nat) : fval :=
  match l with
  | [] => FNaN
  | _ => Finite (inject_Z (Z.of_nat (sum_list l))
                 / inject_Z (Z.of_nat (length l)))%Q
  end.

(** Nearest integer, halves to the even neighbour. *)
Definition round_half_even (q : Q) : Z :=
  let n := Qnum q in
  let d := Z.pos (Qden q) in
  let fl := (n / d)%Z in
  match (2 * (n mod d) ?= d)%Z with
  | Lt => fl
  | Gt => (fl + 1)%Z
  | Eq => if Z.even fl then fl else (fl + 1)%Z
  end.

(** The format [{v:.1f}%].  The ratio is exact here, where Python rounds
    the binary double; the two agree on every value whose rendering this
    development relies on (zero and the specials). *)
Definition fmt_pct (v : fval) : string :=
  match v with
  | FNaN => "nan%"
  | FInf => "inf%"
  | Finite q =>
      let t := round_half_even (q * 10)%Q in
      let a := Z.abs t in
      (if bool_decide (t < 0)%Z then "-" else "")
        +:+ pretty (a / 10)%Z +:+ "." +:+ pretty (a mod 10)%Z +:+ "%"
  end.

(** ** Boolean masks over the enriched rows *)

Definition ecell (k : string) (r : erow) : cell := at_col (fields r) k.

Definition is_planned (r : erow) : bool :=
  cell_eqb_str (ecell "actual_billing_basis" r) "Planned".
Definition is_adhoc (r : erow) : bool :=
  cell_eqb_str (ecell "actual_billing_basis" r) "Adhoc".
Definition is_completed (r : erow) : bool :=
  cell_eqb_str (ecell "trip_status" r) "COMPLETED".
Definition is_cancelled (r : erow) : bool :=
  cell_eqb_str (ecell "trip_status" r) "CANCELLED".
Definition notna (k : string) (r : erow) : bool :=
  match ecell k r with
  | Str _ => true
  | NaN => false
  end.

(** [mask.sum()] and [len(df[mask])]. *)
Definition count (p : erow → bool) (l : list erow) : nat :=
  length (filter (λ r, p r = true) l).

(** ** Fleet scorecards (lines 72-83) *)

Record FleetKpis : Type := MkKpis {
  Total_Trips : nat;
  Plan_Execution : string;
  Adhoc_Rate : string;
  Cancel_Rate : string;
  Vehicle_Compliance_kpi : string
}.

Definition plan_execution_value (l : list erow) : fval :=
  py_rate (count (λ r, is_planned r && is_completed r) l)
          (count is_planned l).
Definition adhoc_rate_value (l : list erow) : fval :=
  py_rate (count is_adhoc l) (length l).
Definition cancel_rate_value (l : list erow) : fval :=
  py_rate (count is_cancelled l) (length l).
Definition vehicle_compliance_value (l : list erow) : fval :=
  fmul (mean (vehicle_match <$> l)) 100.

Definition kpis (df : eframe) : result FleetKpis :=
  let cols := ecolumns df in
  let l := erows df in
  has_col cols "actual_billing_basis" ;;
  has_col cols "trip_status" ;;
  Ok (MkKpis (length l)
             (fmt_pct (plan_execution_value l))
             (fmt_pct (adhoc_rate_value l))
             (fmt_pct (cancel_rate_value l))
             (fmt_pct (vehicle_compliance_value l))).

(** ** Grouping *)

(** Order of the group keys: Python's order on [str], code point by code
    point. *)
Definition str_le (a b : string) : Prop := String.leb a b = true.

Global Instance str_le_dec : RelDecision str_le.
Proof. intros a b. unfold str_le. apply _. Defined.

(** The key of a row for [groupby]; rows whose key is missing are dropped
    ([dropna=True] is the default). *)
Definition key_of (k : string) (r : erow) : option string :=
  match ecell k r with
  | Str s => Some s
  | NaN => None
  end.

(** [df.groupby(k)]: one group per distinct key, keys ascending
    ([sort=True] is the default). *)
Definition group_keys (k : string) (l : list erow) : list string :=
  merge_sort str_le (remove_dups (omap (key_of k) l)).

Definition group_rows (k : string) (g : string) (l : list erow) : list erow :=
  filter (λ r, key_of k r = Some g) l.

Definition groups_of (k : string) (l : list erow) : list (string * list erow) :=
  (λ g, (g, group_rows k g l)) <$> group_keys k l.

Definition groupby (df : eframe) (k : string)
  : result (list (string * list erow)) :=
  has_col (ecolumns df) k ;;
  Ok (groups_of k (erows df)).

(** ** Hub table (lines 90-98) *)

Record HubSummary : Type := MkHub {
  source_mh_name : string;
  Total : nat;
  Plan_Success_Rate : string;
  Adhoc_Zepto : nat;
  Adhoc_Vendor : nat;
  Cancel_Zepto : nat;
  Cancel_Vendor : nat;
  Vehicle_Compliance : string
}.

Definition plan_success_value (g : list erow) : fval :=
  fmul (np_div (count (λ r, is_planned r && is_completed r) g)
               (count is_planned g)) 100.

(** The aggregation lambdas on one group. *)
Definition hub_summary (kg : string * list erow) : HubSummary :=
  let g := kg.2 in
  MkHub kg.1
    (count (notna "master_trip_code") g)
    (fmt_pct (plan_success_value g))
    (count (λ r, bool_decide (adhoc_owner r = "Zepto Issue")) g)
    (count (λ r, bool_decide (adhoc_owner r = "Vendor Issue")) g)
    (count (λ r, bool_decide (cancel_owner r = "Zepto Issue")) g)
    (count (λ r, bool_decide (cancel_owner r = "Vendor Issue")) g)
    (fmt_pct (fmul (mean (vehicle_match <$> g)) 100)).

(** One row of the table; the second lambda reads the billing basis from
    the enclosing frame, by the group's index. *)
Definition hub_row (cols : list string) (kg : string * list erow)
  : result HubSummary :=
  has_col cols "actual_billing_basis" ;;
  Ok (hub_summary kg).

Definition summary_table (df : eframe) : result (list HubSummary) :=
  let cols := ecolumns df in
  groups ← groupby df "source_mh_name" ;
  has_col cols "master_trip_code" ;;
  has_col cols "trip_status" ;;
  mapM (hub_row cols) groups.

(** ** Vendor table (lines 142-146) *)

Record VendorSummary : Type := MkVendor {
  actual_vendor : string;
  Adhocs : nat;
  Cancellations : nat;
  Total_Failures : nat
}.

Definition vendor_row (kg : string * list erow) : VendorSummary :=
  let a := count is_adhoc kg.2 in
  let c := count is_cancelled kg.2 in
  MkVendor kg.1 a c (a + c).

Definition vendor_stats (df : eframe) : result (list VendorSummary) :=
  let cols := ecolumns df in
  groups ← groupby df "actual_vendor" ;
  has_col cols "actual_billing_basis" ;;
  has_col cols "trip_status" ;;
  Ok (vendor_row <$> (groups : list (string * list erow))).

(** ** The engine on one batch

    The three aggregations in the order the script runs them, on the
    enriched batch.  (The sidebar selection between enrichment and
    aggregation keeps or drops whole rows and is the caller's.) *)

Record Summaries : Type := MkSummaries {
  fleet : FleetKpis;
  hubs : list HubSummary;
  vendors : list VendorSummary
}.

Definition summarize (df : eframe) : result Summaries :=
  k ← kpis df ;
  h ← summary_table df ;
  v ← vendor_stats df ;
  Ok (MkSummaries k h v).

Definition engine (df : frame) : result Summaries :=
  e ← load_and_process_data df ;
  summarize e.

(** ** The claims' vocabulary *)

(** ASCII upper-casing, for the case-insensitive comparison the
    specification words the adhoc rule with. *)
Definition upper_ascii (a : Ascii.ascii) : Ascii.ascii :=
  let n := Ascii.N_of_ascii a in
  if bool_decide (97 ≤ n ≤ 122)%N then Ascii.ascii_of_N (n - 32) else a.

Fixpoint upper (s : string) : string :=
  match s with
  | EmptyString => EmptyString
  | String a s' => String (upper_ascii a) (upper s')
  end.

(** Follows the specification's words (not the source): the text contains
    the token under a case-insensitive comparison. *)
Definition contains_ci (token text : string) : bool :=
  contains (upper token) (upper text).

(** The fields the specification calls required, by their column names. *)
Definition required_columns : list string :=
  [ "master_trip_code"; "trip_date"; "source_mh_name"; "actual_billing_basis";
    "trip_status"; "planned_vehicle_type"; "actual_vehicle_type";
    "actual_vendor" ].

(** ** Sample batches *)

Definition header : list string :=
  [ "master_trip_code"; "trip_date"; "source_mh_name"; "actual_billing_basis";
    "trip_status"; "adhoc_trip_creation_reason"; "cancellation_reason_code";
    "planned_vehicle_type"; "actual_vehicle_type"; "actual_vendor" ].

Definition mkrow (l : list (string * string)) : row :=
  list_to_map ((λ p, (p.1, Str p.2)) <$> l).

(** An adhoc trip that was also cancelled; the vendor is blamed for the
    adhoc booking, in upper case. *)
Definition trip_adhoc_cancelled : row := mkrow
  [ ("master_trip_code", "T1"); ("trip_date", "2024-01-01");
    ("source_mh_name", "HUB_A"); ("actual_billing_basis", "Adhoc");
    ("trip_status", "CANCELLED");
    ("adhoc_trip_creation_reason", "VENDOR_DELAY");
    ("cancellation_reason_code", "VEHICLE_UNAVAILABILITY");
    ("planned_vehicle_type", "14FT"); ("actual_vehicle_type", "14FT");
    ("actual_vendor", "V1") ].

(** The same reason typed in lower case. *)
Definition trip_adhoc_lowercase : row := mkrow
  [ ("master_trip_code", "T2"); ("trip_date", "2024-01-01");
    ("source_mh_name", "HUB_A"); ("actual_billing_basis", "Adhoc");
    ("trip_status", "COMPLETED");
    ("adhoc_trip_creation_reason", "vendor_delay");
    ("planned_vehicle_type", "14FT"); ("actual_vehicle_type", "14FT");
    ("actual_vendor", "V1") ].

(** A planned, completed trip from a second hub and vendor. *)
Definition trip_planned_done : row := mkrow
  [ ("master_trip_code", "T3"); ("trip_date", "2024-01-01");
    ("source_mh_name", "HUB_B"); ("actual_billing_basis", "Planned");
    ("trip_status", "COMPLETED");
    ("planned_vehicle_type", "14FT"); ("actual_vehicle_type", "17FT");
    ("actual_vendor", "V2") ].

(** A line of the CSV whose trip code cell is empty. *)
Definition trip_without_code : row := mkrow
  [ ("trip_date", "2024-01-01");
    ("source_mh_name", "HUB_A"); ("actual_billing_basis", "Planned");
    ("trip_status", "COMPLETED");
    ("planned_vehicle_type", "14FT"); ("actual_vehicle_type", "14FT");
    ("actual_vendor", "V1") ].


(** Two trips, two hubs, two vendors. *)
Definition batch_two : frame :=
  Frame header [trip_adhoc_cancelled; trip_planned_done].

Definition enriched_two : eframe :=
  EFrame header (enrich header <$> rows batch_two).

(** A planned trip of the second vendor that was cancelled. *)
Definition trip_cancelled_v2 : row := mkrow
  [ ("master_trip_code", "T4"); ("trip_date", "2024-01-01");
    ("source_mh_name", "HUB_B"); ("actual_billing_basis", "Planned");
    ("trip_status", "CANCELLED");
    ("cancellation_reason_code", "CUSTOMER_REQUEST");
    ("planned_vehicle_type", "14FT"); ("actual_vehicle_type", "14FT");
    ("actual_vendor", "V2") ].

(** Two vendors with one failure each. *)
Definition enriched_tie : eframe :=
  EFrame header (enrich header <$> [trip_adhoc_lowercase; trip_cancelled_v2]).

Definition hub_a_row : HubSummary :=
  MkHub "HUB_A" 1 "nan%" 0 1 0 1 "100.0%".
Definition hub_b_row : HubSummary :=
  MkHub "HUB_B" 1 "100.0%" 0 0 0 0 "0.0%".

Definition vendor_1_row : VendorSummary := MkVendor "V1" 1 0 1.
Definition vendor_2_row : VendorSummary := MkVendor "V2" 0 1 1.

(** Per-vendor counts, as [vendor_stats] takes them over the vendor's
    group. *)
Definition vendor_adhocs (v : string) (l : list erow) : nat :=
  count is_adhoc (group_rows "actual_vendor" v l).
Definition vendor_cancellations (v : string) (l : list erow) : nat :=
  count is_cancelled (group_rows "actual_vendor" v l).

(** ** Locating the newest report (lines 13-15) *)

(** Python's [max] with a key over [best :: l]: a later element replaces
    the best one so far only when its key is strictly greater. *)
Fixpoint py_max_by {A} (key : A → Q) (best : A) (l : list A) : A :=
  match l with
  | [] => best
  | y :: l' =>
      py_max_by key (if Qle_bool (key y) (key best) then best else y) l'
  end.

(** [files] is what [glob] lists in the folder, [getctime] the creation
    time of a path. *)
Definition get_latest_file (getctime : string → Q) (files : list string)
  : option string :=
  match files with
  | [] => None
  | f :: fs => Some (py_max_by getctime f fs)
  end.

(** ** The sidebar selection (line 67) *)

(** [Series.isin(values)] on one cell. *)
Definition isin (c : cell) (values : list cell) : bool :=
  bool_decide (c ∈ values).

(** The mask of line 67 on one record.  [to_date] is the conversion that
    [load_and_process_data] applied to the date column; the enriched rows
    keep the cell as read. *)
Definition selected (to_date : cell → cell) (selected_date : cell)
    (selected_hubs : list cell) (r : erow) : bool :=
  cell_eqb (to_date (ecell "trip_date" r)) selected_date
  && isin (ecell "source_mh_name" r) selected_hubs.

Definition filter_data (to_date : cell → cell) (df_raw : eframe)
    (selected_date : cell) (selected_hubs : list cell) : result eframe :=
  has_col (ecolumns df_raw) "trip_date" ;;
  has_col (ecolumns df_raw) "source_mh_name" ;;
  Ok (EFrame (ecolumns df_raw)
        (filter (λ r, selected to_date selected_date selected_hubs r = true)
           (erows df_raw))).

(** ** Charts (lines 107-138) *)

(** The two slices of the planned-versus-executed pie, from the counts of
    lines 74-75.  Python integers: the subtraction is not truncated. *)
Definition success_data (l : list erow) : list (string * Z) :=
  let planned := count is_planned l in
  let exec_planned := count (λ r, is_planned r && is_completed r) l in
  [ ("Executed (On Plan)", Z.of_nat exec_planned);
    ("Plan Failed", (Z.of_nat planned - Z.of_nat exec_planned)%Z) ].

Definition adhoc_df (l : list erow) : list erow :=
  filter (λ r, is_adhoc r = true) l.

Definition cancel_df (l : list erow) : list erow :=
  filter (λ r, is_cancelled r = true) l.

(** The names column handed to the adhoc pie, or nothing when the message
    'No Adhoc trips.' is shown instead. *)
Definition adhoc_pie (l : list erow) : option (list string) :=
  match adhoc_df l with
  | [] => None
  | g => Some (adhoc_owner <$> g)
  end.

Definition cancel_pie (l : list erow) : option (list string) :=
  match cancel_df l with
  | [] => None
  | g => Some (cancel_owner <$> g)
  end.

(** The size of the slice a pie draws for a name: the rows that carry it. *)
Definition slice (label : string) (names : list string) : nat :=
  length (filter (λ n, n = label) names).

(** ** More sample data *)

(** The identity conversion: dates already in their final form. *)
Definition keep_date (c : cell) : cell := c.

(** ** The script, statement by statement

    The run of the whole script on a parsed report: what it has rendered
    when it stops, and the exception it stops with, if any.  What the
    script takes from outside is a parameter: the date conversion of line
    22 on the date column ([None] when it raises) and Python's [sorted] on
    the distinct dates of line 59 and on the distinct hubs of line 63
    ([None] when the values cannot be ordered).  The two sidebar choices
    are inputs.  The rendering calls themselves are taken not to raise. *)

Module Script.

Inductive exn : Type :=
  | KeyErr (k : string)
  | DateParseErr
  | ValueErr
  | TypeErr.

Inductive res (A : Type) : Type :=
  | Return (a : A)
  | Raise (e : exn).
Arguments Return {A} a.
Arguments Raise {A} e.

Global Instance res_bind : MBind res := λ A B f m,
  match m with
  | Return a => f a
  | Raise e => Raise e
  end.

Definition lift {A} (m : result A) : res A :=
  match m with
  | Ok a => Return a
  | Err (KeyError k) => Raise (KeyErr k)
  end.

(** The summary output of the page, in the order it is rendered (the
    sidebar widgets and the title are not listed).  The two tables are
    recorded as computed, before the display orders them. *)
Inductive shown : Type :=
  | Scorecards (k : FleetKpis)
  | HubTable (tbl : list HubSummary)
  | PlannedPie (slices : list (string * Z))
  | AdhocPie (names : option (list string))
  | CancelPie (names : option (list string))
  | VendorChart (tbl : list VendorSummary).

(** [df[k] = vals]: every row gets the value of its position. *)
Definition set_column (k : string) (vals : list cell) (rs : list row)
  : list row :=
  imap (λ i r, <[k := default NaN (vals !! i)]> r) rs.

(** [Series.unique()]: the distinct values, in order of first appearance;
    missing values count as one value. *)
Fixpoint unique (l : list cell) : list cell :=
  match l with
  | [] => []
  | c :: l' => c :: filter (λ x, x ≠ c) (unique l')
  end.

(** [df[col] = df.apply(f, axis=1)].  On a frame without rows pandas tries
    [f] on one row of missing values: when that raises, [apply] hands back
    the frame itself and the assignment to a single column fails. *)
Definition apply_rows (f : row → result string) (rs : list row)
  : res (list string) :=
  match rs with
  | [] =>
      match f ∅ with
      | Ok _ => Return []
      | Err _ => Raise ValueErr
      end
  | _ => lift (mapM f rs)
  end.

Section run.
Variable to_datetime : list cell → option (list cell).
Variable sorted_dates : list cell → option (list cell).
Variable sorted_hubs : list cell → option (list cell).

(** Lines 21-47, from the parsed CSV on. *)
Definition load_and_process_data (df : frame) : res eframe :=
  let cols := columns df in
  lift (has_col cols "trip_date") ;;
  dates ← match to_datetime ((λ r, at_col r "trip_date") <$> rows df) with
          | Some l => Return l
          | None => Raise DateParseErr
          end ;
  let rs := set_column "trip_date" dates (rows df) in
  lift (has_col cols "planned_vehicle_type") ;;
  lift (has_col cols "actual_vehicle_type") ;;
  let vm := match_of <$> rs in
  ao ← apply_rows (get_adhoc_owner cols) rs ;
  co ← apply_rows (get_cancel_owner cols) rs ;
  Return (EFrame cols (attach rs vm ao co)).

(** Lines 59-64: the option lists of the two sidebar widgets. *)
Definition sidebar (df_raw : eframe) : res unit :=
  lift (has_col (ecolumns df_raw) "trip_date") ;;
  match sorted_dates (unique (ecell "trip_date" <$> erows df_raw)) with
  | None => Raise TypeErr
  | Some _ =>
      lift (has_col (ecolumns df_raw) "source_mh_name") ;;
      match sorted_hubs (unique (ecell "source_mh_name" <$> erows df_raw)) with
      | None => Raise TypeErr
      | Some _ => Return ()
      end
  end.

(** Lines 70-152 on the selected batch. *)
Definition render (df : eframe) : list shown * option exn :=
  match kpis df with
  | Err (KeyError k) => ([], Some (KeyErr k))
  | Ok scorecards =>
      match summary_table df with
      | Err (KeyError k) => ([Scorecards scorecards], Some (KeyErr k))
      | Ok hub_table =>
          let upto_pies :=
            [ Scorecards scorecards; HubTable hub_table;
              PlannedPie (success_data (erows df));
              AdhocPie (adhoc_pie (erows df));
              CancelPie (cancel_pie (erows df)) ] in
          match vendor_stats df with
          | Err (KeyError k) => (upto_pies, Some (KeyErr k))
          | Ok vendor_table =>
              ((upto_pies ++ [VendorChart vendor_table])%list, None)
          end
      end
  end.

Definition run (df : frame) (selected_date : cell) (selected_hubs : list cell)
  : list shown * option exn :=
  match load_and_process_data df with
  | Raise e => ([], Some e)
  | Return df_raw =>
      match sidebar df_raw with
      | Raise e => ([], Some e)
      | Return _ =>
          match filter_data (λ c, c) df_raw selected_date selected_hubs with
          | Err (KeyError k) => ([], Some (KeyErr k))
          | Ok df => render df
          end
      end
  end.

End run.
End Script.



(** Closed decidable goals, by evaluation. *)
Ltac decided := apply (bool_decide_unpack _); vm_compute; exact I.

(** * Properties *)

(** ** The result monad *)

Lemma mapM_pure {A B} (f : A → result B) (g : A → B) (l : list A) :
  (∀ x, x ∈ l → f x = Ok (g x)) → mapM f l = Ok (g <$> l).
Proof.
  induction l as [|x l IH]; intros Hf; simpl; [done|].
  rewrite Hf by left. simpl. rewrite IH; [done|].
  intros y Hy. apply Hf. by right.
Qed.

Lemma mapM_raise {A B} (f : A → result B) (e : error) (l : list A) :
  (∀ x, f x = Err e) → l ≠ [] → mapM f l = Err e.
Proof.
  intros Hf Hl. destruct l as [|x l]; [done|]. simpl. by rewrite Hf.
Qed.

Lemma has_col_Ok cols k : k ∈ cols → has_col cols k = Ok ().
Proof. intros Hk. unfold has_col. by rewrite decide_True. Qed.

Lemma has_col_Err cols k : k ∉ cols → has_col cols k = Err (KeyError k).
Proof. intros Hk. unfold has_col. by rewrite decide_False. Qed.

(** ** Substrings *)

Lemma app_String (a : Ascii.ascii) (s t : string) :
  String a s +:+ t = String a (s +:+ t).
Proof. reflexivity. Qed.

Lemma app_empty (t : string) : "" +:+ t = t.
Proof. reflexivity. Qed.

Lemma prefix_true_iff (n h : string) :
  String.prefix n h = true ↔ ∃ post, h = n +:+ post.
Proof.
  revert h. induction n as [|a n IH]; intros h.
  - split; [by exists h|by destruct h].
  - destruct h as [|b h]; simpl.
    + split; [done|]. by intros [post ?].
    + destruct (Ascii.ascii_dec a b) as [->|Hab].
      * rewrite IH. split; intros [post Hp]; exists post;
          rewrite app_String in *; congruence.
      * split; [done|]. intros [post Hp]. rewrite app_String in Hp. congruence.
Qed.

Lemma prefix_occurs (n h : string) : String.prefix n h = true → occurs n h.
Proof.
  intros [post ->]%prefix_true_iff. exists "", post. by rewrite app_empty.
Qed.

Lemma contains_unfold (n h : string) :
  contains n h =
    if String.prefix n h then true
    else match h with
         | EmptyString => false
         | String _ h' => contains n h'
         end.
Proof. by destruct h. Qed.

Lemma contains_true_iff (n h : string) : contains n h = true ↔ occurs n h.
Proof.
  induction h as [|b h IH]; rewrite contains_unfold.
  - destruct (String.prefix n "") eqn:Hp.
    + split; [|done]. intros _. by apply prefix_occurs.
    + split; [done|]. intros ([|c pre] & post & Heq).
      * rewrite app_empty in Heq.
        assert (String.prefix n "" = true) as Hn; [|congruence].
        apply prefix_true_iff. eauto.
      * by rewrite app_String in Heq.
  - destruct (String.prefix n (String b h)) eqn:Hp.
    + split; [|done]. intros _. by apply prefix_occurs.
    + rewrite IH. split.
      * intros (pre & post & ->). exists (String b pre), post.
        by rewrite app_String.
      * intros ([|c pre] & post & Heq).
        -- rewrite app_empty in Heq.
           assert (String.prefix n (String b h) = true) as Hn; [|congruence].
           apply prefix_true_iff. eauto.
        -- rewrite app_String in Heq. injection Heq as -> ->.
           by exists pre, post.
Qed.

(** ** The order on group keys *)

Global Instance str_le_total : base.Total str_le.
Proof. intros a b. apply String.leb_total. Qed.

Global Instance str_le_antisym : AntiSymm (=) str_le.
Proof. intros a b. apply String.leb_antisym. Qed.

Global Instance str_le_trans : Transitive str_le.
Proof.
  unfold str_le, String.leb. intros a.
  induction a as [|x a IH]; intros [|y b] [|z c]; simpl; try done.
  unfold Ascii.compare.
  destruct (N.compare_spec (Ascii.N_of_ascii x) (Ascii.N_of_ascii y)) as [Hxy|Hxy|Hxy],
    (N.compare_spec (Ascii.N_of_ascii y) (Ascii.N_of_ascii z)) as [Hyz|Hyz|Hyz],
    (N.compare_spec (Ascii.N_of_ascii x) (Ascii.N_of_ascii z)) as [Hxz|Hxz|Hxz];
    try done; try lia.
  apply IH.
Qed.

(** ** Closed forms of the fallible steps *)

Lemma get_adhoc_owner_Ok cols r :
  "actual_billing_basis" ∈ cols →
  get_adhoc_owner cols r = Ok (adhoc_label cols r).
Proof.
  intros Hc. unfold adhoc_label, get_adhoc_owner, getitem.
  rewrite decide_True by done. simpl. by case_match.
Qed.

Lemma get_adhoc_owner_Err cols r :
  "actual_billing_basis" ∉ cols →
  get_adhoc_owner cols r = Err (KeyError "actual_billing_basis").
Proof.
  intros Hc. unfold get_adhoc_owner, getitem. by rewrite decide_False.
Qed.

Lemma get_cancel_owner_Ok cols r :
  "trip_status" ∈ cols →
  get_cancel_owner cols r = Ok (cancel_label cols r).
Proof.
  intros Hc. unfold cancel_label, get_cancel_owner, getitem.
  rewrite decide_True by done. simpl. by case_match.
Qed.

Lemma get_cancel_owner_Err cols r :
  "trip_status" ∉ cols →
  get_cancel_owner cols r = Err (KeyError "trip_status").
Proof.
  intros Hc. unfold get_cancel_owner, getitem. by rewrite decide_False.
Qed.

Lemma mapM_get_adhoc_owner cols l :
  mapM (get_adhoc_owner cols) l =
    if decide ("actual_billing_basis" ∈ cols) then Ok (adhoc_label cols <$> l)
    else match l with
         | [] => Ok []
         | _ => Err (KeyError "actual_billing_basis")
         end.
Proof.
  case_decide as Hc.
  - apply mapM_pure. intros. by apply get_adhoc_owner_Ok.
  - destruct l as [|r l]; [done|].
    apply mapM_raise; [|done]. intros. by apply get_adhoc_owner_Err.
Qed.

Lemma mapM_get_cancel_owner cols l :
  mapM (get_cancel_owner cols) l =
    if decide ("trip_status" ∈ cols) then Ok (cancel_label cols <$> l)
    else match l with
         | [] => Ok []
         | _ => Err (KeyError "trip_status")
         end.
Proof.
  case_decide as Hc.
  - apply mapM_pure. intros. by apply get_cancel_owner_Ok.
  - destruct l as [|r l]; [done|].
    apply mapM_raise; [|done]. intros. by apply get_cancel_owner_Err.
Qed.

Lemma attach_enrich cols l :
  attach l (match_of <$> l) (adhoc_label cols <$> l) (cancel_label cols <$> l)
  = enrich cols <$> l.
Proof. induction l as [|r l IH]; csimpl; [done|]. by rewrite IH. Qed.

Lemma load_and_process_data_Ok df e :
  load_and_process_data df = Ok e →
  e = EFrame (columns df) (enrich (columns df) <$> rows df).
Proof.
  unfold load_and_process_data.
  rewrite mapM_get_adhoc_owner, mapM_get_cancel_owner.
  unfold has_col. repeat case_decide; simpl; try done;
    [by intros [= <-]; rewrite attach_enrich|..];
    by destruct (rows df); simpl; [intros [= <-]|].
Qed.

Lemma mapM_hub_row cols gs :
  mapM (hub_row cols) gs =
    if decide ("actual_billing_basis" ∈ cols) then Ok (hub_summary <$> gs)
    else match gs with
         | [] => Ok []
         | _ => Err (KeyError "actual_billing_basis")
         end.
Proof.
  case_decide as Hc.
  - apply mapM_pure. intros. unfold hub_row. by rewrite has_col_Ok.
  - destruct gs as [|g gs]; [done|].
    apply mapM_raise; [|done]. intros. unfold hub_row. by rewrite has_col_Err.
Qed.

Lemma summary_table_Ok df tbl :
  summary_table df = Ok tbl →
  tbl = hub_summary <$> groups_of "source_mh_name" (erows df).
Proof.
  unfold summary_table, groupby, has_col.
  repeat case_decide; simpl; try done; rewrite mapM_hub_row.
  case_decide; [by intros [= <-]|].
  destruct (groups_of _ _); [by intros [= <-]|done].
Qed.

Lemma vendor_stats_Ok df tbl :
  vendor_stats df = Ok tbl →
  tbl = vendor_row <$> groups_of "actual_vendor" (erows df).
Proof.
  unfold vendor_stats, groupby, has_col.
  repeat case_decide; simpl; try done. by intros [= <-].
Qed.

Lemma load_and_process_data_cols df e :
  load_and_process_data df = Ok e →
  rows df ≠ [] →
  "actual_billing_basis" ∈ columns df ∧ "trip_status" ∈ columns df.
Proof.
  unfold load_and_process_data.
  rewrite mapM_get_adhoc_owner, mapM_get_cancel_owner.
  unfold has_col. repeat case_decide; simpl; try done;
    by destruct (rows df).
Qed.

(** The attribution never raises on a frame that has the two columns it
    indexes and the three that the enrichment reads as columns. *)
Lemma load_and_process_data_total df :
  "trip_date" ∈ columns df → "planned_vehicle_type" ∈ columns df →
  "actual_vehicle_type" ∈ columns df → "actual_billing_basis" ∈ columns df →
  "trip_status" ∈ columns df →
  load_and_process_data df
  = Ok (EFrame (columns df) (enrich (columns df) <$> rows df)).
Proof.
  intros. unfold load_and_process_data.
  rewrite mapM_get_adhoc_owner, mapM_get_cancel_owner, !has_col_Ok by done.
  rewrite !decide_True by done. simpl. by rewrite attach_enrich.
Qed.

(** ** Attribution rules *)

Lemma cell_neb_str_false c s : cell_neb_str c s = false ↔ c = Str s.
Proof.
  unfold cell_neb_str, cell_eqb_str. destruct c as [t|]; simpl.
  - case_bool_decide; naive_solver.
  - naive_solver.
Qed.

Lemma cell_neb_str_true c s : cell_neb_str c s = true ↔ c ≠ Str s.
Proof.
  rewrite <-cell_neb_str_false. destruct (cell_neb_str c s); naive_solver.
Qed.

Lemma adhoc_label_adhoc cols r :
  "actual_billing_basis" ∈ cols →
  at_col r "actual_billing_basis" = Str "Adhoc" →
  adhoc_label cols r =
    if contains "VENDOR" (str (get cols r "adhoc_trip_creation_reason" (Str "")))
    then "Vendor Issue" else "Zepto Issue".
Proof.
  intros Hc Hb. unfold adhoc_label, get_adhoc_owner, getitem.
  rewrite decide_True by done. simpl.
  by rewrite (proj2 (cell_neb_str_false _ _) Hb).
Qed.

Lemma adhoc_label_other cols r :
  "actual_billing_basis" ∈ cols →
  at_col r "actual_billing_basis" ≠ Str "Adhoc" →
  adhoc_label cols r = "N/A".
Proof.
  intros Hc Hb. unfold adhoc_label, get_adhoc_owner, getitem.
  rewrite decide_True by done. simpl.
  by rewrite (proj2 (cell_neb_str_true _ _) Hb).
Qed.

(** C2, as amended: for a record whose billing basis is Adhoc the owner is
    'Vendor Issue' exactly when the text VENDOR, in upper case as written,
    occurs in the adhoc-creation reason, and 'Zepto Issue' otherwise,
    in particular when the reason column is absent or the cell is missing
    or empty; for any other billing basis the owner is 'N/A'.  The
    comparison is case-sensitive. *)
Theorem adhoc_owner_case_sensitive (cols : list string) (r : row) :
  "actual_billing_basis" ∈ cols →
  (at_col r "actual_billing_basis" = Str "Adhoc" →
     (occurs "VENDOR" (str (get cols r "adhoc_trip_creation_reason" (Str "")))
        → get_adhoc_owner cols r = Ok "Vendor Issue")
     ∧ (¬ occurs "VENDOR" (str (get cols r "adhoc_trip_creation_reason" (Str "")))
        → get_adhoc_owner cols r = Ok "Zepto Issue")
     ∧ ("adhoc_trip_creation_reason" ∉ cols
        ∨ at_col r "adhoc_trip_creation_reason" = NaN
        ∨ at_col r "adhoc_trip_creation_reason" = Str ""
        → get_adhoc_owner cols r = Ok "Zepto Issue"))
  ∧ (at_col r "actual_billing_basis" ≠ Str "Adhoc" →
     get_adhoc_owner cols r = Ok "N/A").
Proof.
  intros Hc. rewrite get_adhoc_owner_Ok by done. split.
  - intros Hb. rewrite adhoc_label_adhoc by done. split_and!.
    + intros Ho%contains_true_iff. by rewrite Ho.
    + intros Ho. destruct (contains _ _) eqn:E; [|done].
      by apply contains_true_iff in E.
    + unfold get. intros [Hm|[Hm|Hm]].
      * by rewrite decide_False.
      * case_decide; [by rewrite Hm|done].
      * case_decide; [by rewrite Hm|done].
  - intros Hb. by rewrite adhoc_label_other.
Qed.

Lemma adhoc_owner_case_sensitive_witness :
  "actual_billing_basis" ∈ header
  ∧ get_adhoc_owner header trip_adhoc_cancelled = Ok "Vendor Issue".
Proof.
  assert ("actual_billing_basis" ∈ header) as Hc by decided.
  split; [exact Hc|].
  destruct (adhoc_owner_case_sensitive header trip_adhoc_cancelled Hc)
    as [Hadhoc _].
  destruct (Hadhoc eq_refl) as [Hvendor _].
  apply Hvendor. by exists "", "_DELAY".
Defined.

(** C2, the claim as worded fails: a reason that names the vendor in lower
    case contains the token under a case-insensitive comparison, and the
    adhoc record is still attributed to the operator. *)
Lemma adhoc_owner_lowercase_reason :
  at_col trip_adhoc_lowercase "actual_billing_basis" = Str "Adhoc"
  ∧ contains_ci "VENDOR"
      (str (get header trip_adhoc_lowercase "adhoc_trip_creation_reason"
              (Str ""))) = true
  ∧ get_adhoc_owner header trip_adhoc_lowercase = Ok "Zepto Issue".
Proof. by vm_compute. Qed.

Lemma cancel_label_cancelled cols r :
  "trip_status" ∈ cols →
  at_col r "trip_status" = Str "CANCELLED" →
  cancel_label cols r =
    if bool_decide
         (str (get cols r "cancellation_reason_code" (Str ""))
            ∈ vendor_cancel_codes)
    then "Vendor Issue" else "Zepto Issue".
Proof.
  intros Hc Hb. unfold cancel_label, get_cancel_owner, getitem.
  rewrite decide_True by done. simpl.
  by rewrite (proj2 (cell_neb_str_false _ _) Hb).
Qed.

Lemma cancel_label_other cols r :
  "trip_status" ∈ cols →
  at_col r "trip_status" ≠ Str "CANCELLED" →
  cancel_label cols r = "N/A".
Proof.
  intros Hc Hb. unfold cancel_label, get_cancel_owner, getitem.
  rewrite decide_True by done. simpl.
  by rewrite (proj2 (cell_neb_str_true _ _) Hb).
Qed.

Lemma vendor_cancel_codes_elem code :
  code ∈ vendor_cancel_codes ↔
    code = "PLANNED_VEHICLE_NOT_PROVIDED_BY_VENDOR"
    ∨ code = "VEHICLE_UNAVAILABILITY"
    ∨ code = "PLANNED_VEHICLE_BREAKDOWN"
    ∨ code = "TRANSPORT_VENDOR_ISSUE".
Proof.
  unfold vendor_cancel_codes. rewrite !elem_of_cons, elem_of_nil. tauto.
Qed.

(** C3: for a record whose trip status is CANCELLED the owner is 'Vendor
    Issue' exactly when the cancellation-reason code is one of the four
    vendor-fault codes, and 'Zepto Issue' otherwise, in particular when the
    code column is absent or the cell is missing or empty; for any other
    trip status the owner is 'N/A'. *)
Theorem cancel_owner_by_code (cols : list string) (r : row) :
  "trip_status" ∈ cols →
  (at_col r "trip_status" = Str "CANCELLED" →
     (get_cancel_owner cols r = Ok "Vendor Issue" ↔
        str (get cols r "cancellation_reason_code" (Str ""))
          = "PLANNED_VEHICLE_NOT_PROVIDED_BY_VENDOR"
        ∨ str (get cols r "cancellation_reason_code" (Str ""))
          = "VEHICLE_UNAVAILABILITY"
        ∨ str (get cols r "cancellation_reason_code" (Str ""))
          = "PLANNED_VEHICLE_BREAKDOWN"
        ∨ str (get cols r "cancellation_reason_code" (Str ""))
          = "TRANSPORT_VENDOR_ISSUE")
     ∧ (get_cancel_owner cols r = Ok "Vendor Issue"
        ∨ get_cancel_owner cols r = Ok "Zepto Issue")
     ∧ ("cancellation_reason_code" ∉ cols
        ∨ at_col r "cancellation_reason_code" = NaN
        ∨ at_col r "cancellation_reason_code" = Str ""
        → get_cancel_owner cols r = Ok "Zepto Issue"))
  ∧ (at_col r "trip_status" ≠ Str "CANCELLED" →
     get_cancel_owner cols r = Ok "N/A").
Proof.
  intros Hc. rewrite get_cancel_owner_Ok by done. split.
  - intros Hb. rewrite cancel_label_cancelled by done.
    rewrite <-vendor_cancel_codes_elem. split_and!.
    + case_bool_decide; naive_solver.
    + case_bool_decide; naive_solver.
    + unfold get. intros [Hm|[Hm|Hm]].
      * by rewrite decide_False.
      * case_decide; [by rewrite Hm|done].
      * case_decide; [by rewrite Hm|done].
  - intros Hb. by rewrite cancel_label_other.
Qed.

Lemma cancel_owner_by_code_witness :
  "trip_status" ∈ header
  ∧ get_cancel_owner header trip_adhoc_cancelled = Ok "Vendor Issue".
Proof.
  assert ("trip_status" ∈ header) as Hc by decided.
  split; [exact Hc|].
  destruct (cancel_owner_by_code header trip_adhoc_cancelled Hc)
    as [Hcancelled _].
  destruct (Hcancelled eq_refl) as [Hvendor _].
  apply Hvendor. right. by left.
Defined.

(** C6: every record of the batch has its enriched record, and in it the
    adhoc owner differs from 'N/A' if and only if the billing basis is
    Adhoc. *)
Theorem adhoc_owner_applicable_iff_adhoc (df : frame) (e : eframe) :
  load_and_process_data df = Ok e →
  Forall2 (λ r er,
      fields er = r
      ∧ (adhoc_owner er ≠ "N/A"
         ↔ at_col r "actual_billing_basis" = Str "Adhoc"))
    (rows df) (erows e).
Proof.
  intros Hload.
  pose proof (load_and_process_data_cols _ _ Hload) as Hcols.
  apply load_and_process_data_Ok in Hload as ->. simpl.
  apply Forall2_fmap_r, Forall_Forall2_diag, Forall_forall.
  intros r Hr. split; [done|]. simpl.
  destruct Hcols as [Hc _]; [by intros Hnil; rewrite Hnil in Hr; inv Hr|].
  destruct (decide (at_col r "actual_billing_basis" = Str "Adhoc")) as [Hb|Hb].
  - rewrite adhoc_label_adhoc by done. by case_match.
  - rewrite adhoc_label_other by done. naive_solver.
Qed.

Lemma adhoc_owner_applicable_iff_adhoc_witness :
  load_and_process_data (Frame header [trip_adhoc_cancelled; trip_planned_done])
  = Ok (EFrame header
          (enrich header <$> [trip_adhoc_cancelled; trip_planned_done]))
  ∧ Forall2 (λ r er,
      fields er = r
      ∧ (adhoc_owner er ≠ "N/A"
         ↔ at_col r "actual_billing_basis" = Str "Adhoc"))
    [trip_adhoc_cancelled; trip_planned_done]
    (enrich header <$> [trip_adhoc_cancelled; trip_planned_done]).
Proof.
  assert (load_and_process_data
            (Frame header [trip_adhoc_cancelled; trip_planned_done])
          = Ok (EFrame header
                  (enrich header <$> [trip_adhoc_cancelled; trip_planned_done])))
    as Hload by (apply load_and_process_data_total; decided).
  split; [exact Hload|].
  exact (adhoc_owner_applicable_iff_adhoc _ _ Hload).
Defined.

(** ** Counting and grouping *)

Global Instance count_Permutation (p : erow → bool) :
  Proper ((≡ₚ) ==> (=)) (count p).
Proof. intros l1 l2 Hl. unfold count. by rewrite Hl. Qed.

Lemma count_cons p r l :
  count p (r :: l) = (if p r then 1 else 0) + count p l.
Proof.
  unfold count. rewrite filter_cons.
  case_decide as Hp; [by rewrite Hp|by destruct (p r)].
Qed.

Lemma count_app p l1 l2 : count p (l1 ++ l2) = count p l1 + count p l2.
Proof. unfold count. by rewrite filter_app, length_app. Qed.

Lemma count_all p l : Forall (λ r, p r = true) l → count p l = length l.
Proof.
  induction 1 as [|r l Hr _ IH]; [done|].
  rewrite count_cons, Hr, IH. done.
Qed.

Global Instance mean_Permutation : Proper ((≡ₚ) ==> (=)) mean.
Proof.
  intros l1 l2 Hl. destruct l1 as [|x l1], l2 as [|y l2]; try done.
  - by apply Permutation_nil_cons in Hl.
  - symmetry in Hl. by apply Permutation_nil_cons in Hl.
  - unfold mean. by rewrite Hl.
Qed.

Lemma group_rows_cons k g r l :
  group_rows k g (r :: l) =
    if decide (key_of k r = Some g) then r :: group_rows k g l
    else group_rows k g l.
Proof. unfold group_rows. by rewrite filter_cons. Qed.

Lemma group_rows_app k g l1 l2 :
  group_rows k g (l1 ++ l2) = (group_rows k g l1 ++ group_rows k g l2)%list.
Proof. unfold group_rows. by rewrite filter_app. Qed.

Global Instance group_rows_Permutation k g :
  Proper ((≡ₚ) ==> (≡ₚ)) (group_rows k g).
Proof. intros l1 l2 Hl. unfold group_rows. by rewrite Hl. Qed.

Lemma elem_of_group_keys k l g :
  g ∈ group_keys k l ↔ ∃ r, r ∈ l ∧ key_of k r = Some g.
Proof.
  unfold group_keys.
  rewrite merge_sort_Permutation, elem_of_remove_dups, list_elem_of_omap.
  done.
Qed.

Lemma NoDup_group_keys k l : NoDup (group_keys k l).
Proof.
  unfold group_keys. rewrite merge_sort_Permutation. apply NoDup_remove_dups.
Qed.

Lemma Sorted_group_keys k l : Sorted str_le (group_keys k l).
Proof. apply (Sorted_merge_sort str_le). Qed.

Lemma group_keys_Permutation k l1 l2 :
  l1 ≡ₚ l2 → group_keys k l1 = group_keys k l2.
Proof.
  intros Hl. apply (Sorted_unique str_le); try apply Sorted_group_keys.
  apply NoDup_Permutation; try apply NoDup_group_keys.
  intros g. rewrite !elem_of_group_keys.
  split; intros (r & Hr & Hk); exists r; split; try done.
  - by rewrite <-Hl.
  - by rewrite Hl.
Qed.

Lemma sum_list_with_plus {A} (f h : A → nat) (l : list A) :
  sum_list_with (λ x, f x + h x) l = sum_list_with f l + sum_list_with h l.
Proof. induction l as [|x l IH]; simpl; [done|]. rewrite IH. lia. Qed.

Lemma sum_list_fmap_with {A} (f : A → nat) (l : list A) :
  sum_list (f <$> l) = sum_list_with f l.
Proof. induction l as [|x l IH]; csimpl; [done|]. by rewrite IH. Qed.

Lemma sum_list_with_zero {A} (f : A → nat) (l : list A) :
  (∀ x, x ∈ l → f x = 0) → sum_list_with f l = 0.
Proof.
  induction l as [|x l IH]; intros Hf; simpl; [done|].
  rewrite Hf by left. rewrite IH; [done|]. intros y Hy. apply Hf. by right.
Qed.

(** A key selects one group out of a duplicate-free list of keys. *)
Lemma sum_list_with_selected (ks : list string) (o : option string) (c : nat) :
  NoDup ks →
  sum_list_with (λ g, if decide (o = Some g) then c else 0) ks
  = match o with
    | Some g => if decide (g ∈ ks) then c else 0
    | None => 0
    end.
Proof.
  induction 1 as [|g ks Hg Hks IH].
  - destruct o; [|done]. by rewrite decide_False by apply not_elem_of_nil.
  - change (sum_list_with ?f (g :: ks)) with (f g + sum_list_with f ks).
    rewrite IH. destruct o as [g0|]; [|by rewrite decide_False].
    destruct (decide (g0 = g)) as [->|Hne].
    + rewrite decide_True by done. rewrite decide_False by done.
      rewrite decide_True by left. lia.
    + rewrite decide_False by congruence.
      destruct (decide (g0 ∈ ks)) as [Hin|Hin].
      * by rewrite decide_True by by right.
      * rewrite decide_False; [done|]. by intros [?|?]%elem_of_cons.
Qed.

Lemma sum_list_with_ext {A} (f h : A → nat) (l : list A) :
  (∀ x, f x = h x) → sum_list_with f l = sum_list_with h l.
Proof. intros Hfh. induction l as [|x l IH]; simpl; [done|]. by rewrite Hfh, IH. Qed.

(** Summing a count over the groups counts the rows that have a key. *)
Lemma sum_count_groups k (p : erow → bool) (l : list erow) (ks : list string) :
  NoDup ks →
  (∀ r g, r ∈ l → key_of k r = Some g → g ∈ ks) →
  sum_list_with (λ g, count p (group_rows k g l)) ks
  = count (λ r, notna k r && p r) l.
Proof.
  intros Hks. induction l as [|r l IH]; intros Hcover.
  - simpl. by apply sum_list_with_zero.
  - rewrite count_cons, <-IH by (intros; eapply Hcover; [by right|done]).
    rewrite (sum_list_with_ext _
      (λ g, (if decide (key_of k r = Some g)
             then (if p r then 1 else 0) else 0)
            + count p (group_rows k g l))).
    2:{ intros g. rewrite group_rows_cons.
        case_decide; [by rewrite count_cons|done]. }
    rewrite sum_list_with_plus, sum_list_with_selected by done.
    f_equal. unfold notna, key_of in *.
    destruct (ecell k r) as [s|] eqn:Hcell; simpl.
    + rewrite decide_True; [done|].
      eapply (Hcover r); [left|]. by rewrite Hcell.
    + done.
Qed.

Lemma elem_of_groups_of k l kg :
  kg ∈ groups_of k l ↔ kg.1 ∈ group_keys k l ∧ kg.2 = group_rows k kg.1 l.
Proof.
  unfold groups_of. rewrite list_elem_of_fmap. split.
  - by intros (g & -> & Hg).
  - intros [Hg Hrows]. exists kg.1. split; [|done].
    destruct kg as [g rs]. simpl in *. by subst.
Qed.

(** ** The hub table is a partition of the keyed records *)

Lemma summary_table_Total_sum df tbl :
  summary_table df = Ok tbl →
  sum_list (Total <$> tbl)
  = count (λ r, notna "source_mh_name" r && notna "master_trip_code" r)
      (erows df).
Proof.
  intros ->%summary_table_Ok. unfold groups_of.
  rewrite <-!list_fmap_compose, sum_list_fmap_with.
  rewrite <-(sum_count_groups "source_mh_name" _ _
               (group_keys "source_mh_name" (erows df))).
  - done.
  - apply NoDup_group_keys.
  - intros r g Hr Hk. apply elem_of_group_keys. eauto.
Qed.

(** C7, at the failing input: a batch of one record whose trip-code cell is
    empty.  The fleet total, which takes the size of the batch, is 1; the
    hub's Total, which counts the trip-code cells that are not empty, is 0,
    in a row whose rates are computed from that same record.  The Totals
    add up to 0, not to the size of the batch. *)
Theorem hub_total_skips_missing_code :
  ∃ s, engine (Frame header [trip_without_code]) = Ok s
    ∧ length (rows (Frame header [trip_without_code])) = 1
    ∧ Total_Trips (fleet s) = 1
    ∧ hubs s = [MkHub "HUB_A" 0 "100.0%" 0 0 0 0 "100.0%"]
    ∧ sum_list (Total <$> hubs s) = 0.
Proof. eexists. by vm_compute. Qed.

(** ** Vendor failures *)

Lemma elem_of_vendor_stats df tbl s :
  vendor_stats df = Ok tbl →
  s ∈ tbl ↔
    actual_vendor s ∈ group_keys "actual_vendor" (erows df)
    ∧ s = MkVendor (actual_vendor s)
            (vendor_adhocs (actual_vendor s) (erows df))
            (vendor_cancellations (actual_vendor s) (erows df))
            (vendor_adhocs (actual_vendor s) (erows df)
             + vendor_cancellations (actual_vendor s) (erows df)).
Proof.
  intros ->%vendor_stats_Ok. rewrite list_elem_of_fmap. split.
  - intros ([g rs] & -> & [Hg Hrs]%elem_of_groups_of). simpl in *. by subst.
  - intros [Hg Hs]. exists (actual_vendor s, group_rows "actual_vendor" (actual_vendor s) (erows df)).
    split; [done|]. by apply elem_of_groups_of.
Qed.

(** C10: put one record that is both Adhoc and CANCELLED into a batch; in
    the vendor table of the larger batch its vendor's Adhocs and
    Cancellations are each one more than the vendor's counts over the
    other records, and Total_Failures is two more: the one trip is counted
    twice. *)
Theorem adhoc_and_cancelled_counted_twice
    (cols : list string) (l1 l2 : list erow) (r : erow) (v : string)
    (tbl : list VendorSummary) :
  key_of "actual_vendor" r = Some v →
  is_adhoc r = true →
  is_cancelled r = true →
  vendor_stats (EFrame cols (l1 ++ r :: l2)) = Ok tbl →
  MkVendor v
    (vendor_adhocs v (l1 ++ l2) + 1)
    (vendor_cancellations v (l1 ++ l2) + 1)
    (vendor_adhocs v (l1 ++ l2) + vendor_cancellations v (l1 ++ l2) + 2)
  ∈ tbl.
Proof.
  intros Hv Ha Hc Htbl. apply (elem_of_vendor_stats _ _ _ Htbl). simpl. split.
  - apply elem_of_group_keys. exists r. split; [|done].
    apply elem_of_app. right. left.
  - unfold vendor_adhocs, vendor_cancellations.
    rewrite !group_rows_app, group_rows_cons, decide_True by done.
    rewrite !count_app, !count_cons, Ha, Hc. f_equal; lia.
Qed.

Lemma adhoc_and_cancelled_counted_twice_witness :
  MkVendor "V1" 1 1 2
  ∈ [ MkVendor "V1" 1 1 2; MkVendor "V2" 0 0 0 ].
Proof.
  apply (adhoc_and_cancelled_counted_twice header []
           [enrich header trip_planned_done]
           (enrich header trip_adhoc_cancelled) "V1");
    by vm_compute.
Defined.

(** ** Order of the records does not matter *)

Lemma groups_of_nil_iff k l1 l2 :
  l1 ≡ₚ l2 → groups_of k l1 = [] ↔ groups_of k l2 = [].
Proof.
  intros Hl. unfold groups_of. rewrite (group_keys_Permutation k l1 l2 Hl).
  by destruct (group_keys k l2).
Qed.

Lemma hub_summary_Permutation g l1 l2 :
  l1 ≡ₚ l2 → hub_summary (g, l1) = hub_summary (g, l2).
Proof.
  intros Hl. unfold hub_summary, plan_success_value. simpl.
  by rewrite Hl.
Qed.

Lemma vendor_row_Permutation g l1 l2 :
  l1 ≡ₚ l2 → vendor_row (g, l1) = vendor_row (g, l2).
Proof. intros Hl. unfold vendor_row. simpl. by rewrite Hl. Qed.

Lemma fmap_groups_of_Permutation {B} (f : string * list erow → B) k l1 l2 :
  (∀ g r1 r2, r1 ≡ₚ r2 → f (g, r1) = f (g, r2)) →
  l1 ≡ₚ l2 → f <$> groups_of k l1 = f <$> groups_of k l2.
Proof.
  intros Hf Hl. unfold groups_of.
  rewrite <-!list_fmap_compose, (group_keys_Permutation k l1 l2 Hl).
  apply list_fmap_ext. intros _ g _. simpl. apply Hf. by rewrite Hl.
Qed.

Lemma kpis_Permutation cols l1 l2 :
  l1 ≡ₚ l2 → kpis (EFrame cols l1) = kpis (EFrame cols l2).
Proof.
  intros Hl. unfold kpis. simpl.
  destruct (has_col cols "actual_billing_basis"); [simpl|done].
  destruct (has_col cols "trip_status"); [simpl|done].
  unfold plan_execution_value, adhoc_rate_value, cancel_rate_value,
    vehicle_compliance_value.
  by rewrite Hl.
Qed.

Lemma summary_table_Permutation cols l1 l2 :
  l1 ≡ₚ l2 → summary_table (EFrame cols l1) = summary_table (EFrame cols l2).
Proof.
  intros Hl. unfold summary_table, groupby. simpl.
  destruct (has_col cols "source_mh_name"); [simpl|done].
  destruct (has_col cols "master_trip_code"); [simpl|done].
  destruct (has_col cols "trip_status"); [simpl|done].
  rewrite !mapM_hub_row. case_decide.
  - f_equal. apply fmap_groups_of_Permutation; [|done].
    apply hub_summary_Permutation.
  - pose proof (groups_of_nil_iff "source_mh_name" l1 l2 Hl) as Hnil.
    destruct (groups_of _ l1), (groups_of _ l2); try done.
    + by destruct Hnil as [Hn _]; specialize (Hn eq_refl).
    + by destruct Hnil as [_ Hn]; specialize (Hn eq_refl).
Qed.

Lemma vendor_stats_Permutation cols l1 l2 :
  l1 ≡ₚ l2 → vendor_stats (EFrame cols l1) = vendor_stats (EFrame cols l2).
Proof.
  intros Hl. unfold vendor_stats, groupby. simpl.
  destruct (has_col cols "actual_vendor"); [simpl|done].
  destruct (has_col cols "actual_billing_basis"); [simpl|done].
  destruct (has_col cols "trip_status"); [simpl|done].
  f_equal. apply fmap_groups_of_Permutation; [|done].
  apply vendor_row_Permutation.
Qed.

Lemma summarize_Permutation cols l1 l2 :
  l1 ≡ₚ l2 → summarize (EFrame cols l1) = summarize (EFrame cols l2).
Proof.
  intros Hl. unfold summarize.
  by rewrite (kpis_Permutation cols l1 l2), (summary_table_Permutation cols l1 l2),
    (vendor_stats_Permutation cols l1 l2).
Qed.

Lemma load_and_process_data_unfold df :
  load_and_process_data df =
    (has_col (columns df) "trip_date" ;;
     has_col (columns df) "planned_vehicle_type" ;;
     has_col (columns df) "actual_vehicle_type" ;;
     if decide ("actual_billing_basis" ∈ columns df ∧ "trip_status" ∈ columns df)
     then Ok (EFrame (columns df) (enrich (columns df) <$> rows df))
     else match rows df with
          | [] => Ok (EFrame (columns df) [])
          | _ => Err (KeyError (if decide ("actual_billing_basis" ∈ columns df)
                                then "trip_status"
                                else "actual_billing_basis"))
          end).
Proof.
  unfold load_and_process_data.
  rewrite mapM_get_adhoc_owner, mapM_get_cancel_owner.
  destruct (has_col _ "trip_date"); [simpl|done].
  destruct (has_col _ "planned_vehicle_type"); [simpl|done].
  destruct (has_col _ "actual_vehicle_type"); [simpl|done].
  repeat case_decide; try tauto; simpl.
  - by rewrite attach_enrich.
  - by destruct (rows df).
  - by destruct (rows df).
  - by destruct (rows df).
Qed.

(** C8: the engine returns the same value (the same scorecards, the same
    hub rows and the same vendor rows, or the same error) on a batch and on
    any permutation of its records. *)
Theorem engine_permutation_invariant (df df' : frame) :
  columns df' = columns df →
  rows df' ≡ₚ rows df →
  engine df' = engine df.
Proof.
  intros Hcols Hrows. unfold engine.
  rewrite !load_and_process_data_unfold, Hcols.
  destruct (has_col _ "trip_date"); [simpl|done].
  destruct (has_col _ "planned_vehicle_type"); [simpl|done].
  destruct (has_col _ "actual_vehicle_type"); [simpl|done].
  case_decide.
  - simpl. apply summarize_Permutation. by rewrite Hrows.
  - destruct (rows df) as [|r l], (rows df') as [|r' l']; try done.
    + symmetry in Hrows. by apply Permutation_nil_cons in Hrows.
    + by apply Permutation_nil_cons in Hrows.
Qed.

Lemma engine_permutation_invariant_witness :
  engine (Frame header [trip_planned_done; trip_adhoc_cancelled])
  = engine batch_two.
Proof.
  apply engine_permutation_invariant; [reflexivity|]. apply perm_swap.
Defined.

(** ** Rates on an empty denominator *)

Lemma count_and_le p q l : (count (λ r, p r && q r) l ≤ count p l)%nat.
Proof.
  induction l as [|r l IH]; [done|]. rewrite !count_cons.
  destruct (p r), (q r); simpl; lia.
Qed.

Lemma py_rate_zero a : py_rate a 0 = Finite 0%Q.
Proof. done. Qed.

Lemma fmt_pct_zero : fmt_pct (Finite 0%Q) = "0.0%".
Proof. by vm_compute. Qed.

(** The guarded fleet rates render 0.0% on an empty denominator. *)
Lemma plan_execution_no_planned l :
  count is_planned l = 0 → fmt_pct (plan_execution_value l) = "0.0%".
Proof.
  intros Hp. unfold plan_execution_value.
  by rewrite Hp, py_rate_zero, fmt_pct_zero.
Qed.

Lemma adhoc_rate_empty : fmt_pct (adhoc_rate_value []) = "0.0%".
Proof. by vm_compute. Qed.

Lemma cancel_rate_empty : fmt_pct (cancel_rate_value []) = "0.0%".
Proof. by vm_compute. Qed.

(** The fleet compliance is a bare mean and renders nan% on no record. *)
Lemma vehicle_compliance_empty : fmt_pct (vehicle_compliance_value []) = "nan%".
Proof. by vm_compute. Qed.

(** The hub rate is a bare division: nan% for a group with nothing planned,
    whatever else the group holds. *)
Lemma plan_success_no_planned g :
  count is_planned g = 0 → fmt_pct (plan_success_value g) = "nan%".
Proof.
  intros Hp. unfold plan_success_value.
  pose proof (count_and_le is_planned is_completed g) as Hle.
  rewrite Hp in *.
  by replace (count (λ r, is_planned r && is_completed r) g) with 0 by lia.
Qed.

(** C1, at the failing input: a batch of one adhoc trip.  Its hub group has
    no Planned record; the fleet scorecard, which guards the division,
    shows 0.0% for plan execution, and the hub table, which does not,
    shows nan% for the plan success rate. *)
Theorem hub_plan_success_rate_unguarded :
  ∃ s, engine (Frame header [trip_adhoc_cancelled]) = Ok s
    ∧ Plan_Execution (fleet s) = "0.0%"
    ∧ hubs s = [MkHub "HUB_A" 1 "nan%" 0 1 0 1 "100.0%"].
Proof. eexists. by vm_compute. Qed.

(** ** Missing fields *)


Lemma lift_has_col_Ok cols k :
  k ∈ cols → Script.lift (has_col cols k) = Script.Return ().
Proof. intros Hk. by rewrite has_col_Ok. Qed.

Lemma lift_has_col_Err cols k :
  k ∉ cols → Script.lift (has_col cols k) = Script.Raise (Script.KeyErr k).
Proof. intros Hk. by rewrite has_col_Err. Qed.

Lemma set_column_cons k vals r rs :
  ∃ r' rs', Script.set_column k vals (r :: rs) = r' :: rs'.
Proof. unfold Script.set_column. simpl. eauto. Qed.

Lemma apply_rows_cons f r rs :
  Script.apply_rows f (r :: rs) = Script.lift (mapM f (r :: rs)).
Proof. done. Qed.

(** On a report with records, the enrichment raises for the first of its
    five columns that the header lacks, or for a date it cannot convert,
    and otherwise returns the enriched records. *)
Lemma script_load_unfold to_datetime df :
  rows df ≠ [] →
  Script.load_and_process_data to_datetime df =
    if decide ("trip_date" ∈ columns df) then
      match to_datetime ((λ r, at_col r "trip_date") <$> rows df) with
      | None => Script.Raise Script.DateParseErr
      | Some dates =>
          if decide ("planned_vehicle_type" ∈ columns df) then
            if decide ("actual_vehicle_type" ∈ columns df) then
              if decide ("actual_billing_basis" ∈ columns df) then
                if decide ("trip_status" ∈ columns df) then
                  Script.Return
                    (EFrame (columns df)
                       (enrich (columns df)
                          <$> Script.set_column "trip_date" dates (rows df)))
                else Script.Raise (Script.KeyErr "trip_status")
              else Script.Raise (Script.KeyErr "actual_billing_basis")
            else Script.Raise (Script.KeyErr "actual_vehicle_type")
          else Script.Raise (Script.KeyErr "planned_vehicle_type")
      end
    else Script.Raise (Script.KeyErr "trip_date").
Proof.
  intros Hrows. unfold Script.load_and_process_data.
  destruct (decide ("trip_date" ∈ columns df));
    [rewrite (lift_has_col_Ok _ "trip_date") by done
    |by rewrite (lift_has_col_Err _ "trip_date")].
  simpl. destruct (to_datetime _) as [dates|]; [simpl|done].
  destruct (decide ("planned_vehicle_type" ∈ columns df));
    [rewrite (lift_has_col_Ok _ "planned_vehicle_type") by done
    |by rewrite (lift_has_col_Err _ "planned_vehicle_type")].
  simpl.
  destruct (decide ("actual_vehicle_type" ∈ columns df));
    [rewrite (lift_has_col_Ok _ "actual_vehicle_type") by done
    |by rewrite (lift_has_col_Err _ "actual_vehicle_type")].
  simpl.
  destruct (rows df) as [|r l]; [done|].
  destruct (set_column_cons "trip_date" dates r l) as (r' & rs' & Hset).
  rewrite Hset, !apply_rows_cons.
  rewrite mapM_get_adhoc_owner, mapM_get_cancel_owner.
  destruct (decide ("actual_billing_basis" ∈ columns df)); [simpl|done].
  destruct (decide ("trip_status" ∈ columns df)); [simpl|done].
  by rewrite attach_enrich.
Qed.

Lemma kpis_Ok cols l :
  "actual_billing_basis" ∈ cols → "trip_status" ∈ cols →
  ∃ k, kpis (EFrame cols l) = Ok k.
Proof. intros. unfold kpis. simpl. rewrite !has_col_Ok by done. simpl. eauto. Qed.

Lemma summary_table_cases cols l :
  "actual_billing_basis" ∈ cols → "trip_status" ∈ cols →
  "source_mh_name" ∈ cols →
  if decide ("master_trip_code" ∈ cols)
  then ∃ tbl, summary_table (EFrame cols l) = Ok tbl
  else summary_table (EFrame cols l) = Err (KeyError "master_trip_code").
Proof.
  intros Hb Hs Hh. unfold summary_table, groupby. simpl.
  rewrite (has_col_Ok _ "source_mh_name") by done. simpl.
  case_decide.
  - rewrite !has_col_Ok by done. simpl.
    rewrite mapM_hub_row, decide_True by done. eauto.
  - by rewrite (has_col_Err _ "master_trip_code").
Qed.

Lemma vendor_stats_cases cols l :
  "actual_billing_basis" ∈ cols → "trip_status" ∈ cols →
  if decide ("actual_vendor" ∈ cols)
  then ∃ tbl, vendor_stats (EFrame cols l) = Ok tbl
  else vendor_stats (EFrame cols l) = Err (KeyError "actual_vendor").
Proof.
  intros Hb Hs. unfold vendor_stats, groupby. simpl. case_decide.
  - rewrite !has_col_Ok by done. simpl. eauto.
  - by rewrite (has_col_Err _ "actual_vendor").
Qed.

(** What the page has shown when the selected batch has been rendered, by
    the columns of the header. *)
Lemma render_cases cols l :
  "actual_billing_basis" ∈ cols → "trip_status" ∈ cols →
  "source_mh_name" ∈ cols →
  (("master_trip_code" ∉ cols)
   ∧ ∃ k, Script.render (EFrame cols l)
          = ([Script.Scorecards k],
             Some (Script.KeyErr "master_trip_code")))
  ∨ ("master_trip_code" ∈ cols ∧ ("actual_vendor" ∉ cols)
     ∧ ∃ k tbl,
         Script.render (EFrame cols l)
         = ([ Script.Scorecards k; Script.HubTable tbl;
              Script.PlannedPie (success_data l);
              Script.AdhocPie (adhoc_pie l);
              Script.CancelPie (cancel_pie l) ],
            Some (Script.KeyErr "actual_vendor")))
  ∨ ("master_trip_code" ∈ cols ∧ "actual_vendor" ∈ cols
     ∧ ∃ k tbl vtbl,
         Script.render (EFrame cols l)
         = ([ Script.Scorecards k; Script.HubTable tbl;
              Script.PlannedPie (success_data l);
              Script.AdhocPie (adhoc_pie l);
              Script.CancelPie (cancel_pie l);
              Script.VendorChart vtbl ],
            None)).
Proof.
  intros Hb Hs Hh. unfold Script.render.
  destruct (kpis_Ok cols l Hb Hs) as [k ->].
  pose proof (summary_table_cases cols l Hb Hs Hh) as Hhub.
  pose proof (vendor_stats_cases cols l Hb Hs) as Hven.
  destruct (decide ("master_trip_code" ∈ cols)) as [Hc|Hc].
  - destruct Hhub as [tbl ->]. right.
    destruct (decide ("actual_vendor" ∈ cols)) as [Hv|Hv].
    + destruct Hven as [vtbl ->]. right. split_and!; [done..|]. by eauto.
    + rewrite Hven. left. split_and!; [done..|]. by eauto.
  - rewrite Hhub. left. split; [done|]. by eauto.
Qed.

(** With the eight columns in the header, dates that convert and values
    that can be ordered, the run completes, whatever cells are empty. *)
Lemma run_completes
    (to_datetime sorted_dates sorted_hubs : list cell → option (list cell))
    (df : frame) (selected_date : cell) (selected_hubs : list cell) :
  (∀ k, k ∈ required_columns → k ∈ columns df) →
  rows df ≠ [] →
  is_Some (to_datetime ((λ r, at_col r "trip_date") <$> rows df)) →
  (∀ values, is_Some (sorted_dates values)) →
  (∀ values, is_Some (sorted_hubs values)) →
  ∃ scorecards hub_table planned adhoc cancel vendor_table,
    Script.run to_datetime sorted_dates sorted_hubs df
      selected_date selected_hubs
    = ([ Script.Scorecards scorecards; Script.HubTable hub_table;
         Script.PlannedPie planned; Script.AdhocPie adhoc;
         Script.CancelPie cancel; Script.VendorChart vendor_table ],
       None).
Proof.
  intros Hreq Hrows [dates Hdates] Hsd Hsh. unfold Script.run.
  rewrite script_load_unfold, Hdates by done.
  rewrite !decide_True by (apply Hreq; decided).
  unfold Script.sidebar. simpl.
  rewrite (lift_has_col_Ok _ "trip_date") by (apply Hreq; decided). simpl.
  destruct (Hsd (Script.unique
                   (ecell "trip_date"
                      <$> (enrich (columns df)
                             <$> Script.set_column "trip_date" dates (rows df)))))
    as [? ->].
  rewrite (lift_has_col_Ok _ "source_mh_name") by (apply Hreq; decided). simpl.
  destruct (Hsh (Script.unique
                   (ecell "source_mh_name"
                      <$> (enrich (columns df)
                             <$> Script.set_column "trip_date" dates (rows df)))))
    as [? ->].
  unfold filter_data. simpl. rewrite !has_col_Ok by (apply Hreq; decided). simpl.
  destruct (render_cases (columns df)
              (filter (λ r, selected (λ c, c) selected_date selected_hubs r = true)
                 (enrich (columns df)
                    <$> Script.set_column "trip_date" dates (rows df))))
    as [(Hc & _)|[(_ & Hv & _)|(_ & _ & sc & tbl & vtbl & ->)]];
    try (apply Hreq; decided).
  - destruct Hc. apply Hreq. decided.
  - destruct Hv. apply Hreq. decided.
  - by eauto 10.
Qed.




(** * Further properties of the script *)

(** ** The enrichment, record by record *)

Lemma elem_of_enriched df e er :
  load_and_process_data df = Ok e →
  er ∈ erows e →
  ∃ r, r ∈ rows df ∧ er = enrich (columns df) r
    ∧ "actual_billing_basis" ∈ columns df ∧ "trip_status" ∈ columns df.
Proof.
  intros Hload Her.
  pose proof (load_and_process_data_cols _ _ Hload) as Hcols.
  apply load_and_process_data_Ok in Hload as ->. simpl in Her.
  apply list_elem_of_fmap in Her as (r & -> & Hr).
  exists r. split_and!; [done|done|..]; apply Hcols; by intros Hnil; rewrite Hnil in Hr; inv Hr.
Qed.

(** In the enriched batch the cancel owner differs from 'N/A' exactly on
    the records whose trip status is CANCELLED. *)
Theorem cancel_owner_applicable_iff_cancelled (df : frame) (e : eframe) :
  load_and_process_data df = Ok e →
  Forall2 (λ r er,
      fields er = r
      ∧ (cancel_owner er ≠ "N/A" ↔ at_col r "trip_status" = Str "CANCELLED"))
    (rows df) (erows e).
Proof.
  intros Hload.
  pose proof (load_and_process_data_cols _ _ Hload) as Hcols.
  apply load_and_process_data_Ok in Hload as ->. simpl.
  apply Forall2_fmap_r, Forall_Forall2_diag, Forall_forall.
  intros r Hr. split; [done|]. simpl.
  destruct Hcols as [_ Hc]; [by intros Hnil; rewrite Hnil in Hr; inv Hr|].
  destruct (decide (at_col r "trip_status" = Str "CANCELLED")) as [Hb|Hb].
  - rewrite cancel_label_cancelled by done. by case_match.
  - rewrite cancel_label_other by done. tauto.
Qed.

Lemma cancel_owner_applicable_iff_cancelled_witness :
  Forall2 (λ r er,
      fields er = r
      ∧ (cancel_owner er ≠ "N/A" ↔ at_col r "trip_status" = Str "CANCELLED"))
    (rows batch_two) (erows enriched_two).
Proof.
  apply (cancel_owner_applicable_iff_cancelled batch_two enriched_two).
  apply load_and_process_data_total; decided.
Defined.

Lemma enriched_adhoc_owner df e er :
  load_and_process_data df = Ok e → er ∈ erows e →
  adhoc_owner er =
    if is_adhoc er
    then (if contains "VENDOR"
               (str (get (columns df) (fields er)
                       "adhoc_trip_creation_reason" (Str "")))
          then "Vendor Issue" else "Zepto Issue")
    else "N/A".
Proof.
  intros Hload Her.
  destruct (elem_of_enriched _ _ _ Hload Her) as (r & _ & -> & Hb & _).
  unfold is_adhoc, ecell. simpl.
  destruct (cell_eqb_str (at_col r "actual_billing_basis") "Adhoc") eqn:E.
  - apply adhoc_label_adhoc; [done|].
    apply cell_neb_str_false. unfold cell_neb_str. by rewrite E.
  - apply adhoc_label_other; [done|].
    apply cell_neb_str_true. unfold cell_neb_str. by rewrite E.
Qed.

Lemma enriched_cancel_owner df e er :
  load_and_process_data df = Ok e → er ∈ erows e →
  cancel_owner er =
    if is_cancelled er
    then (if bool_decide
               (str (get (columns df) (fields er)
                       "cancellation_reason_code" (Str ""))
                ∈ vendor_cancel_codes)
          then "Vendor Issue" else "Zepto Issue")
    else "N/A".
Proof.
  intros Hload Her.
  destruct (elem_of_enriched _ _ _ Hload Her) as (r & _ & -> & _ & Hs).
  unfold is_cancelled, ecell. simpl.
  destruct (cell_eqb_str (at_col r "trip_status") "CANCELLED") eqn:E.
  - apply cancel_label_cancelled; [done|].
    apply cell_neb_str_false. unfold cell_neb_str. by rewrite E.
  - apply cancel_label_other; [done|].
    apply cell_neb_str_true. unfold cell_neb_str. by rewrite E.
Qed.

(** ** Counts that split *)

Lemma count_split (p q s : erow → bool) (l : list erow) :
  (∀ r, r ∈ l →
     (if p r then 1 else 0) + (if q r then 1 else 0) = if s r then 1 else 0) →
  count p l + count q l = count s l.
Proof.
  induction l as [|r l IH]; intros Hpq; [done|].
  rewrite !count_cons, <-IH by (intros; apply Hpq; by right).
  pose proof (Hpq r ltac:(left)). lia.
Qed.

Lemma count_le_length p l : (count p l ≤ length l)%nat.
Proof. unfold count. apply length_filter. Qed.

Lemma enriched_adhoc_split df e er :
  load_and_process_data df = Ok e → er ∈ erows e →
  (if bool_decide (adhoc_owner er = "Zepto Issue") then 1 else 0)
  + (if bool_decide (adhoc_owner er = "Vendor Issue") then 1 else 0)
  = if is_adhoc er then 1 else 0.
Proof.
  intros Hload Her. rewrite (enriched_adhoc_owner _ _ _ Hload Her).
  destruct (is_adhoc er); [|done]. by destruct (contains _ _).
Qed.

Lemma enriched_cancel_split df e er :
  load_and_process_data df = Ok e → er ∈ erows e →
  (if bool_decide (cancel_owner er = "Zepto Issue") then 1 else 0)
  + (if bool_decide (cancel_owner er = "Vendor Issue") then 1 else 0)
  = if is_cancelled er then 1 else 0.
Proof.
  intros Hload Her. rewrite (enriched_cancel_owner _ _ _ Hload Her).
  destruct (is_cancelled er); [|done]. by destruct (bool_decide (_ ∈ _)).
Qed.

Lemma elem_of_summary_table df tbl h :
  summary_table df = Ok tbl →
  h ∈ tbl ↔
    source_mh_name h ∈ group_keys "source_mh_name" (erows df)
    ∧ h = hub_summary (source_mh_name h,
                       group_rows "source_mh_name" (source_mh_name h) (erows df)).
Proof.
  intros ->%summary_table_Ok. rewrite list_elem_of_fmap. split.
  - intros ([g rs] & -> & [Hg Hrs]%elem_of_groups_of). simpl in *. by subst.
  - intros [Hg Hh]. eexists. split; [exact Hh|]. by apply elem_of_groups_of.
Qed.

(** In every row of the hub table of an enriched batch, the two adhoc
    columns add up to the number of the hub's records whose billing basis
    is Adhoc, and the two cancel columns to the number of its records whose
    status is CANCELLED: every such record is blamed on exactly one side. *)
Theorem hub_owner_counts_consistent
    (df : frame) (e : eframe) (tbl : list HubSummary) (h : HubSummary) :
  load_and_process_data df = Ok e →
  summary_table e = Ok tbl →
  h ∈ tbl →
  Adhoc_Zepto h + Adhoc_Vendor h
  = count is_adhoc (group_rows "source_mh_name" (source_mh_name h) (erows e))
  ∧ Cancel_Zepto h + Cancel_Vendor h
    = count is_cancelled
        (group_rows "source_mh_name" (source_mh_name h) (erows e)).
Proof.
  intros Hload Htbl Hh.
  apply (elem_of_summary_table _ _ _ Htbl) in Hh as [_ ->]. simpl.
  split; apply count_split; intros r [_ Hr]%list_elem_of_filter.
  - by apply (enriched_adhoc_split df e).
  - by apply (enriched_cancel_split df e).
Qed.

Lemma hub_owner_counts_consistent_witness :
  Adhoc_Zepto hub_a_row + Adhoc_Vendor hub_a_row
  = count is_adhoc (group_rows "source_mh_name" "HUB_A" (erows enriched_two))
  ∧ Cancel_Zepto hub_a_row + Cancel_Vendor hub_a_row
    = count is_cancelled
        (group_rows "source_mh_name" "HUB_A" (erows enriched_two)).
Proof.
  apply (hub_owner_counts_consistent batch_two enriched_two
           [hub_a_row; hub_b_row] hub_a_row).
  - apply load_and_process_data_total; decided.
  - by vm_compute.
  - left.
Defined.

(** ** Tables against the batch *)

Lemma sum_fmap_groups (f : string * list erow → nat) k l :
  sum_list (f <$> groups_of k l)
  = sum_list_with (λ g, f (g, group_rows k g l)) (group_keys k l).
Proof.
  unfold groups_of. by rewrite <-list_fmap_compose, sum_list_fmap_with.
Qed.

Lemma sum_count_group_keys k p l :
  sum_list_with (λ g, count p (group_rows k g l)) (group_keys k l)
  = count (λ r, notna k r && p r) l.
Proof.
  apply sum_count_groups; [apply NoDup_group_keys|].
  intros r g Hr Hk. apply elem_of_group_keys. eauto.
Qed.

(** The vendor table accounts for every record that names a vendor: its
    Adhocs add up to the number of such records whose billing basis is
    Adhoc, its Cancellations to the number whose status is CANCELLED, and
    Total_Failures to the two together. *)
Theorem vendor_table_sums (df : eframe) (tbl : list VendorSummary) :
  vendor_stats df = Ok tbl →
  sum_list (Adhocs <$> tbl)
  = count (λ r, notna "actual_vendor" r && is_adhoc r) (erows df)
  ∧ sum_list (Cancellations <$> tbl)
    = count (λ r, notna "actual_vendor" r && is_cancelled r) (erows df)
  ∧ sum_list (Total_Failures <$> tbl)
    = sum_list (Adhocs <$> tbl) + sum_list (Cancellations <$> tbl).
Proof.
  intros ->%vendor_stats_Ok.
  rewrite <-!list_fmap_compose, !sum_fmap_groups. simpl.
  rewrite sum_list_with_plus, !sum_count_group_keys. done.
Qed.

Lemma vendor_table_sums_witness :
  sum_list (Adhocs <$> [vendor_1_row; vendor_2_row])
  = count (λ r, notna "actual_vendor" r && is_adhoc r) (erows enriched_tie)
  ∧ sum_list (Cancellations <$> [vendor_1_row; vendor_2_row])
    = count (λ r, notna "actual_vendor" r && is_cancelled r)
        (erows enriched_tie)
  ∧ sum_list (Total_Failures <$> [vendor_1_row; vendor_2_row])
    = sum_list (Adhocs <$> [vendor_1_row; vendor_2_row])
      + sum_list (Cancellations <$> [vendor_1_row; vendor_2_row]).
Proof.
  apply (vendor_table_sums enriched_tie). by vm_compute.
Defined.

(** The hub table accounts for every record that names a hub: each of its
    four owner columns adds up to the number of such records that carry
    the label. *)
Theorem hub_table_sums (df : eframe) (tbl : list HubSummary) :
  summary_table df = Ok tbl →
  sum_list (Adhoc_Zepto <$> tbl)
  = count (λ r, notna "source_mh_name" r
                && bool_decide (adhoc_owner r = "Zepto Issue")) (erows df)
  ∧ sum_list (Adhoc_Vendor <$> tbl)
    = count (λ r, notna "source_mh_name" r
                  && bool_decide (adhoc_owner r = "Vendor Issue")) (erows df)
  ∧ sum_list (Cancel_Zepto <$> tbl)
    = count (λ r, notna "source_mh_name" r
                  && bool_decide (cancel_owner r = "Zepto Issue")) (erows df)
  ∧ sum_list (Cancel_Vendor <$> tbl)
    = count (λ r, notna "source_mh_name" r
                  && bool_decide (cancel_owner r = "Vendor Issue")) (erows df).
Proof.
  intros ->%summary_table_Ok.
  rewrite <-!list_fmap_compose, !sum_fmap_groups. simpl.
  by rewrite !sum_count_group_keys.
Qed.

Lemma hub_table_sums_witness :
  sum_list (Adhoc_Vendor <$> [hub_a_row; hub_b_row])
  = count (λ r, notna "source_mh_name" r
                && bool_decide (adhoc_owner r = "Vendor Issue"))
      (erows enriched_two).
Proof.
  apply (hub_table_sums enriched_two). by vm_compute.
Defined.

(** ** Rates as numbers *)

Lemma pct_bounds (a b : nat) :
  (a ≤ b)%nat → (0 < b)%nat →
  (0 <= inject_Z (Z.of_nat a) / inject_Z (Z.of_nat b) * 100
   ∧ inject_Z (Z.of_nat a) / inject_Z (Z.of_nat b) * 100 <= 100)%Q.
Proof.
  intros Hab Hb.
  assert (0 <= inject_Z (Z.of_nat a))%Q as Ha0.
  { change 0%Q with (inject_Z 0). rewrite <-Zle_Qle. lia. }
  assert (inject_Z (Z.of_nat a) <= inject_Z (Z.of_nat b))%Q as Hle.
  { rewrite <-Zle_Qle. lia. }
  assert (0 < inject_Z (Z.of_nat b))%Q as Hb0.
  { change 0%Q with (inject_Z 0). rewrite <-Zlt_Qlt. lia. }
  set (qa := inject_Z (Z.of_nat a)) in *.
  set (qb := inject_Z (Z.of_nat b)) in *.
  assert (0 <= qa / qb)%Q as H0.
  { apply Qle_shift_div_l; [done|]. lra. }
  assert (qa / qb <= 1)%Q as H1.
  { apply Qle_shift_div_r; [done|]. lra. }
  split; lra.
Qed.

Lemma py_rate_bounds (a b : nat) :
  (a ≤ b)%nat →
  ∃ q, py_rate a b = Finite q ∧ (0 <= q)%Q ∧ (q <= 100)%Q.
Proof.
  intros Hab. unfold py_rate. case_bool_decide as Hb.
  - eexists. split; [done|]. by apply pct_bounds.
  - exists 0%Q. split; [done|]. split; lra.
Qed.

(** The three guarded fleet rates are always numbers between 0 and 100,
    never a missing value or an infinity, whatever the batch, the empty
    one included. *)
Theorem fleet_rates_bounded (l : list erow) :
  (∃ q, plan_execution_value l = Finite q ∧ (0 <= q)%Q ∧ (q <= 100)%Q)
  ∧ (∃ q, adhoc_rate_value l = Finite q ∧ (0 <= q)%Q ∧ (q <= 100)%Q)
  ∧ (∃ q, cancel_rate_value l = Finite q ∧ (0 <= q)%Q ∧ (q <= 100)%Q).
Proof.
  split_and!; apply py_rate_bounds.
  - apply count_and_le.
  - apply count_le_length.
  - apply count_le_length.
Qed.

Lemma np_rate_cases (a b : nat) :
  (a ≤ b)%nat →
  (b = 0 ∧ fmul (np_div a b) 100 = FNaN)
  ∨ ((0 < b)%nat
     ∧ ∃ q, fmul (np_div a b) 100 = Finite q ∧ (0 <= q)%Q ∧ (q <= 100)%Q).
Proof.
  intros Hab. destruct b as [|b].
  - left. by replace a with 0 by lia.
  - right. split; [lia|]. unfold np_div.
    destruct a; (eexists; split; [done|]; apply pct_bounds; lia).
Qed.

Lemma app_assoc_string (s t u : string) : (s +:+ t) +:+ u = s +:+ t +:+ u.
Proof. induction s as [|a s IH]; [done|]. by rewrite !app_String, IH. Qed.

Lemma fmt_pct_has_point q : occurs "." (fmt_pct (Finite q)).
Proof.
  unfold fmt_pct. eexists (_ +:+ _), _. by rewrite app_assoc_string.
Qed.

Lemma fmt_pct_Finite_not_nan q : fmt_pct (Finite q) ≠ "nan%".
Proof.
  intros Heq. pose proof (fmt_pct_has_point q) as Hocc.
  rewrite Heq in Hocc. apply contains_true_iff in Hocc. by vm_compute in Hocc.
Qed.

(** A hub's plan success rate is never an infinity: it is the missing value
    (shown as nan%) exactly when the hub has no Planned record, and a
    number between 0 and 100 otherwise. *)
Theorem hub_plan_success_rate_cases
    (df : eframe) (tbl : list HubSummary) (h : HubSummary) :
  summary_table df = Ok tbl →
  h ∈ tbl →
  (Plan_Success_Rate h = "nan%"
   ↔ count is_planned
       (group_rows "source_mh_name" (source_mh_name h) (erows df)) = 0)
  ∧ ((0 < count is_planned
            (group_rows "source_mh_name" (source_mh_name h) (erows df)))%nat
     → ∃ q, plan_success_value
              (group_rows "source_mh_name" (source_mh_name h) (erows df))
            = Finite q
          ∧ (0 <= q)%Q ∧ (q <= 100)%Q).
Proof.
  intros Htbl Hh.
  apply (elem_of_summary_table _ _ _ Htbl) in Hh as [_ ->]. simpl.
  set (g := group_rows _ _ _).
  destruct (np_rate_cases (count (λ r, is_planned r && is_completed r) g)
              (count is_planned g) (count_and_le _ _ _))
    as [[Hz Hnan]|[Hpos (q & Hq & Hb)]].
  - split; [|lia]. split; [done|]. intros _.
    unfold plan_success_value. by rewrite Hnan.
  - split; [|by eauto]. unfold plan_success_value. rewrite Hq. split; [|lia].
    intros Hnan. by apply fmt_pct_Finite_not_nan in Hnan.
Qed.

Lemma hub_plan_success_rate_cases_witness :
  Plan_Success_Rate hub_a_row = "nan%"
  ↔ count is_planned
      (group_rows "source_mh_name" "HUB_A" (erows enriched_two)) = 0.
Proof.
  apply (hub_plan_success_rate_cases enriched_two [hub_a_row; hub_b_row]
           hub_a_row); [by vm_compute|left].
Defined.

Lemma sum_vehicle_match_le df e :
  load_and_process_data df = Ok e →
  (sum_list (vehicle_match <$> erows e) ≤ length (erows e))%nat.
Proof.
  intros ->%load_and_process_data_Ok. simpl.
  induction (rows df) as [|r l IH]; csimpl; [done|].
  unfold match_of at 1. case_match; lia.
Qed.

Lemma mean_bounds (l : list nat) :
  l ≠ [] → (sum_list l ≤ length l)%nat →
  ∃ q, fmul (mean l) 100 = Finite q ∧ (0 <= q)%Q ∧ (q <= 100)%Q.
Proof.
  intros Hne Hsum. destruct l as [|x l]; [done|].
  eexists. split; [done|]. apply pct_bounds; [done|simpl; lia].
Qed.

(** Vehicle compliance over an enriched batch: the fleet figure is the
    missing value (nan%) exactly on the empty batch and a number between 0
    and 100 otherwise; a hub's figure is always such a number, since a hub
    that has a row has a record. *)
Theorem vehicle_compliance_cases
    (df : frame) (e : eframe) (tbl : list HubSummary) :
  load_and_process_data df = Ok e →
  summary_table e = Ok tbl →
  (vehicle_compliance_value (erows e) = FNaN ↔ erows e = [])
  ∧ (erows e ≠ [] →
     ∃ q, vehicle_compliance_value (erows e) = Finite q
        ∧ (0 <= q)%Q ∧ (q <= 100)%Q)
  ∧ Forall (λ h, Vehicle_Compliance h ≠ "nan%") tbl.
Proof.
  intros Hload Htbl. unfold vehicle_compliance_value.
  pose proof (sum_vehicle_match_le _ _ Hload) as Hsum.
  split_and!.
  - destruct (erows e); [done|]. split; done.
  - intros Hne. apply mean_bounds; [|by rewrite length_fmap].
    by destruct (erows e).
  - apply Forall_forall. intros h Hh.
    pose proof Hh as [Hkey ->]%(elem_of_summary_table _ _ _ Htbl). simpl.
    apply elem_of_group_keys in Hkey as (r & Hr & Hk).
    assert (r ∈ group_rows "source_mh_name" (source_mh_name h) (erows e))
      as Hin by (apply list_elem_of_filter; done).
    destruct (group_rows _ _ _) as [|r0 g]; [by inv Hin|].
    apply fmt_pct_Finite_not_nan.
Qed.

Lemma vehicle_compliance_cases_witness :
  Forall (λ h, Vehicle_Compliance h ≠ "nan%") [hub_a_row; hub_b_row].
Proof.
  apply (vehicle_compliance_cases batch_two enriched_two [hub_a_row; hub_b_row]).
  - apply load_and_process_data_total; decided.
  - by vm_compute.
Defined.

(** ** Charts *)

(** The planned-versus-executed pie: neither slice is negative, the two add
    up to the number of Planned records, and 'Plan Failed' counts the
    Planned records that are not COMPLETED. *)
Theorem success_data_slices (l : list erow) :
  ∃ executed failed : Z,
    success_data l = [("Executed (On Plan)", executed); ("Plan Failed", failed)]
    ∧ (0 ≤ executed)%Z ∧ (0 ≤ failed)%Z
    ∧ (executed + failed)%Z = Z.of_nat (count is_planned l)
    ∧ failed
      = Z.of_nat (count (λ r, is_planned r && negb (is_completed r)) l).
Proof.
  eexists _, _. split; [done|].
  assert (count (λ r, is_planned r && is_completed r) l
          + count (λ r, is_planned r && negb (is_completed r)) l
          = count is_planned l) as Hsplit.
  { apply count_split. intros r _. by destruct (is_planned r), (is_completed r). }
  lia.
Qed.

Lemma slice_cons label n names :
  slice label (n :: names)
  = (if bool_decide (n = label) then 1 else 0) + slice label names.
Proof.
  unfold slice. rewrite filter_cons. by repeat case_decide; case_bool_decide.
Qed.

Lemma slice_fmap (f : erow → string) label (l : list erow) :
  slice label (f <$> l) = count (λ r, bool_decide (f r = label)) l.
Proof.
  induction l as [|r l IH]; [done|]. csimpl.
  by rewrite slice_cons, count_cons, IH.
Qed.

Lemma count_none p l : Forall (λ r, p r = false) l → count p l = 0.
Proof.
  induction 1 as [|r l Hr _ IH]; [done|].
  by rewrite count_cons, Hr, IH.
Qed.

Lemma count_filter_self p l :
  count p (filter (λ r, p r = true) l) = length (filter (λ r, p r = true) l).
Proof.
  apply count_all, Forall_forall. by intros r [Hp _]%list_elem_of_filter.
Qed.

(** The adhoc pie of an enriched batch: it is replaced by the message
    exactly when no record is Adhoc; otherwise it has one name per Adhoc
    record, every name is 'Vendor Issue' or 'Zepto Issue' (there is never
    an 'N/A' slice), and the two slices add up to the number of Adhoc
    records. *)
Theorem adhoc_pie_slices (df : frame) (e : eframe) :
  load_and_process_data df = Ok e →
  (adhoc_pie (erows e) = None ↔ count is_adhoc (erows e) = 0)
  ∧ ∀ names, adhoc_pie (erows e) = Some names →
      Forall (λ n, n = "Vendor Issue" ∨ n = "Zepto Issue") names
      ∧ slice "N/A" names = 0
      ∧ slice "Zepto Issue" names + slice "Vendor Issue" names
        = count is_adhoc (erows e).
Proof.
  intros Hload.
  assert (∀ names, names = adhoc_owner <$> adhoc_df (erows e) →
            Forall (λ n, n = "Vendor Issue" ∨ n = "Zepto Issue") names
            ∧ slice "N/A" names = 0
            ∧ slice "Zepto Issue" names + slice "Vendor Issue" names
              = count is_adhoc (erows e)) as Hnames.
  { intros names ->. unfold adhoc_df.
    assert (∀ r, r ∈ filter (λ r, is_adhoc r = true) (erows e) →
              adhoc_owner r = "Vendor Issue" ∨ adhoc_owner r = "Zepto Issue")
      as Hlab.
    { intros r [Ha Hr]%list_elem_of_filter.
      rewrite (enriched_adhoc_owner _ _ _ Hload Hr), Ha. case_match; auto. }
    split_and!.
    - apply Forall_fmap, Forall_forall. intros r Hr. by apply Hlab.
    - rewrite slice_fmap. apply count_none, Forall_forall. intros r Hr.
      destruct (Hlab r Hr) as [-> | ->]; done.
    - rewrite !slice_fmap.
      rewrite (count_split _ _ is_adhoc).
      + by rewrite count_filter_self.
      + intros r [Ha Hr]%list_elem_of_filter. rewrite Ha.
        destruct (Hlab r (proj2 (list_elem_of_filter _ _ _) (conj Ha Hr)))
          as [-> | ->]; done. }
  assert (count is_adhoc (erows e) = length (adhoc_df (erows e))) as Hlen
    by done.
  unfold adhoc_pie. split.
  - rewrite Hlen. by destruct (adhoc_df (erows e)).
  - intros names Hsome. apply Hnames.
    destruct (adhoc_df (erows e)); [done|]. by injection Hsome as <-.
Qed.

Lemma adhoc_pie_slices_witness :
  adhoc_pie (erows enriched_two) = None
  ↔ count is_adhoc (erows enriched_two) = 0.
Proof.
  apply (adhoc_pie_slices batch_two enriched_two).
  apply load_and_process_data_total; decided.
Defined.

(** The cancellation pie of an enriched batch, likewise: the message
    exactly when no record is CANCELLED; otherwise only the names 'Vendor
    Issue' and 'Zepto Issue', no 'N/A' slice, and the two slices add up to
    the number of CANCELLED records. *)
Theorem cancel_pie_slices (df : frame) (e : eframe) :
  load_and_process_data df = Ok e →
  (cancel_pie (erows e) = None ↔ count is_cancelled (erows e) = 0)
  ∧ ∀ names, cancel_pie (erows e) = Some names →
      Forall (λ n, n = "Vendor Issue" ∨ n = "Zepto Issue") names
      ∧ slice "N/A" names = 0
      ∧ slice "Zepto Issue" names + slice "Vendor Issue" names
        = count is_cancelled (erows e).
Proof.
  intros Hload.
  assert (∀ r, r ∈ cancel_df (erows e) →
            cancel_owner r = "Vendor Issue" ∨ cancel_owner r = "Zepto Issue")
    as Hlab.
  { intros r [Ha Hr]%list_elem_of_filter.
    rewrite (enriched_cancel_owner _ _ _ Hload Hr), Ha. case_match; auto. }
  assert (count is_cancelled (erows e) = length (cancel_df (erows e))) as Hlen
    by done.
  unfold cancel_pie. split.
  - rewrite Hlen. by destruct (cancel_df (erows e)).
  - intros names Hsome.
    assert (names = cancel_owner <$> cancel_df (erows e)) as ->.
    { destruct (cancel_df (erows e)); [done|]. by injection Hsome as <-. }
    clear Hsome. split_and!.
    + apply Forall_fmap, Forall_forall. intros r Hr. by apply Hlab.
    + rewrite slice_fmap. apply count_none, Forall_forall. intros r Hr.
      destruct (Hlab r Hr) as [-> | ->]; done.
    + rewrite !slice_fmap, Hlen. unfold cancel_df in *.
      rewrite <-count_filter_self. apply count_split.
      intros r Hr. pose proof Hr as [Ha _]%list_elem_of_filter. rewrite Ha.
      destruct (Hlab r Hr) as [-> | ->]; done.
Qed.

Lemma cancel_pie_slices_witness :
  cancel_pie (erows enriched_two) = None
  ↔ count is_cancelled (erows enriched_two) = 0.
Proof.
  apply (cancel_pie_slices batch_two enriched_two).
  apply load_and_process_data_total; decided.
Defined.

(** ** The newest report *)

Lemma py_max_by_spec {A} (key : A → Q) (before : list A) (best : A)
    (between l : list A) :
  Forall (λ g, (key g < key best)%Q) before →
  Forall (λ g, (key g <= key best)%Q) between →
  ∃ pre post,
    (before ++ best :: between ++ l)%list
    = (pre ++ py_max_by key best l :: post)%list
    ∧ Forall (λ g, (key g < key (py_max_by key best l))%Q) pre
    ∧ Forall (λ g, (key g <= key (py_max_by key best l))%Q) post.
Proof.
  revert before best between.
  induction l as [|y l IH]; intros before best between Hbefore Hbetween.
  - exists before, between. by rewrite app_nil_r.
  - simpl. destruct (Qle_bool (key y) (key best)) eqn:Hle.
    + apply Qle_bool_iff in Hle.
      destruct (IH before best (between ++ [y])%list) as (pre & post & Heq & H)
        ; [done|by apply Forall_app; split; [|constructor]|].
      exists pre, post. split; [|done]. by rewrite <-Heq, <-app_assoc.
    + assert (key best < key y)%Q as Hlt.
      { apply Qnot_le_lt. intros H%Qle_bool_iff. congruence. }
      destruct (IH (before ++ best :: between)%list y []) as (pre & post & Heq & H).
      * apply Forall_app. split; [|constructor].
        -- eapply Forall_impl; [done|]. simpl. intros g Hg. lra.
        -- lra.
        -- eapply Forall_impl; [done|]. simpl. intros g Hg. lra.
      * constructor.
      * exists pre, post. split; [|done]. by rewrite <-Heq, <-app_assoc.
Qed.

(** [get_latest_file] answers nothing exactly when the folder lists no
    file; otherwise it answers a listed file that no listed file is newer
    than, and among equally new ones the first listed. *)
Theorem get_latest_file_newest (getctime : string → Q) (files : list string) :
  (get_latest_file getctime files = None ↔ files = [])
  ∧ ∀ f, get_latest_file getctime files = Some f →
      ∃ pre post, files = (pre ++ f :: post)%list
        ∧ Forall (λ g, (getctime g < getctime f)%Q) pre
        ∧ Forall (λ g, (getctime g <= getctime f)%Q) post.
Proof.
  destruct files as [|f0 fs]; simpl.
  - split; [done|]. by intros f.
  - split; [done|]. intros f [= <-].
    apply (py_max_by_spec getctime [] f0 [] fs); constructor.
Qed.

(** ** The sidebar selection *)

Lemma filter_data_Ok to_date df d hubs df' :
  filter_data to_date df d hubs = Ok df' →
  df' = EFrame (ecolumns df)
          (filter (λ r, selected to_date d hubs r = true) (erows df)).
Proof.
  unfold filter_data, has_col. repeat case_decide; simpl; try done.
  by intros [= <-].
Qed.

Lemma group_rows_selected to_date d hubs g l :
  Str g ∈ hubs →
  group_rows "source_mh_name" g
    (filter (λ r, selected to_date d hubs r = true) l)
  = filter (λ r, key_of "source_mh_name" r = Some g
                 ∧ cell_eqb (to_date (ecell "trip_date" r)) d = true) l.
Proof.
  intros Hg. unfold group_rows. rewrite list_filter_filter.
  apply list_filter_iff. intros r. unfold selected, isin, key_of.
  rewrite andb_true_iff, bool_decide_eq_true.
  destruct (ecell "source_mh_name" r) as [s|]; [|by split; intros [? ?]].
  split.
  - intros [[= ->] [? ?]]. done.
  - intros [[= ->] ?]. done.
Qed.

(** Of the selection, the hub table shows only selected hubs, and a row
    only for a hub that has a record of the selected date; the row is the
    summary of exactly that hub's records of that date. *)
Theorem hub_table_of_selection
    (to_date : cell → cell) (df df' : eframe) (d : cell) (hubs : list cell)
    (tbl : list HubSummary) (h : HubSummary) :
  filter_data to_date df d hubs = Ok df' →
  summary_table df' = Ok tbl →
  h ∈ tbl →
  Str (source_mh_name h) ∈ hubs
  ∧ (∃ r, r ∈ erows df
        ∧ ecell "source_mh_name" r = Str (source_mh_name h)
        ∧ cell_eqb (to_date (ecell "trip_date" r)) d = true)
  ∧ h = hub_summary
          (source_mh_name h,
           filter (λ r, key_of "source_mh_name" r = Some (source_mh_name h)
                        ∧ cell_eqb (to_date (ecell "trip_date" r)) d = true)
             (erows df)).
Proof.
  intros ->%filter_data_Ok Htbl Hh.
  apply (elem_of_summary_table _ _ _ Htbl) in Hh as [Hkey Heq]. simpl in *.
  apply elem_of_group_keys in Hkey as (r & [Hsel Hr]%list_elem_of_filter & Hk).
  unfold selected, isin in Hsel.
  apply andb_true_iff in Hsel as [Hdate Hhub%bool_decide_eq_true].
  assert (ecell "source_mh_name" r = Str (source_mh_name h)) as Hcell.
  { unfold key_of in Hk. destruct (ecell "source_mh_name" r); by simplify_eq. }
  rewrite Hcell in Hhub. split_and!.
  - done.
  - by exists r.
  - by rewrite <-(group_rows_selected to_date d hubs).
Qed.

(** A hub's row does not depend on which other hubs are selected: with the
    same date, a row shown under one selection is shown unchanged under any
    other selection that includes the hub. *)
Theorem hub_row_independent_of_selection
    (to_date : cell → cell) (df df1 df2 : eframe) (d : cell)
    (hubs1 hubs2 : list cell) (tbl1 tbl2 : list HubSummary) (h : HubSummary) :
  filter_data to_date df d hubs1 = Ok df1 →
  filter_data to_date df d hubs2 = Ok df2 →
  summary_table df1 = Ok tbl1 →
  summary_table df2 = Ok tbl2 →
  h ∈ tbl1 →
  Str (source_mh_name h) ∈ hubs2 →
  h ∈ tbl2.
Proof.
  intros Hf1 Hf2 Ht1 Ht2 Hh Hin2.
  destruct (hub_table_of_selection _ _ _ _ _ _ _ Hf1 Ht1 Hh)
    as (_ & (r & Hr & Hcell & Hdate) & Heq).
  apply filter_data_Ok in Hf2 as ->.
  apply (elem_of_summary_table _ _ _ Ht2). simpl. split.
  - apply elem_of_group_keys. exists r. split.
    + apply list_elem_of_filter. split; [|done].
      unfold selected, isin. rewrite Hdate, Hcell. simpl.
      by apply bool_decide_eq_true.
    + unfold key_of. by rewrite Hcell.
  - by rewrite (group_rows_selected to_date d hubs2).
Qed.

Lemma hub_table_of_selection_witness :
  Str (source_mh_name hub_a_row) ∈ [Str "HUB_A"].
Proof.
  eapply (hub_table_of_selection keep_date enriched_two _ (Str "2024-01-01")
            [Str "HUB_A"] [hub_a_row] hub_a_row).
  - by vm_compute.
  - by vm_compute.
  - left.
Defined.

Lemma hub_row_independent_of_selection_witness :
  hub_a_row ∈ [hub_a_row; hub_b_row].
Proof.
  eapply (hub_row_independent_of_selection keep_date enriched_two _ _
            (Str "2024-01-01") [Str "HUB_A"] [Str "HUB_A"; Str "HUB_B"]
            [hub_a_row] [hub_a_row; hub_b_row] hub_a_row).
  - by vm_compute.
  - by vm_compute.
  - by vm_compute.
  - by vm_compute.
  - left.
  - left.
Defined.

(** With no hub selected the batch is empty and the script still runs to
    the end: 0 trips, 0.0% for the three guarded rates, nan% for vehicle
    compliance, no hub row, no vendor row, and both owner pies replaced by
    their message. *)
Theorem nothing_selected
    (to_date : cell → cell) (df : eframe) (d : cell) :
  "trip_date" ∈ ecolumns df → "source_mh_name" ∈ ecolumns df →
  "actual_billing_basis" ∈ ecolumns df → "trip_status" ∈ ecolumns df →
  "master_trip_code" ∈ ecolumns df → "actual_vendor" ∈ ecolumns df →
  ∃ df', filter_data to_date df d [] = Ok df'
    ∧ erows df' = []
    ∧ summarize df'
      = Ok (MkSummaries (MkKpis 0 "0.0%" "0.0%" "0.0%" "nan%") [] [])
    ∧ adhoc_pie (erows df') = None
    ∧ cancel_pie (erows df') = None.
Proof.
  intros Hd Hh Hb Hs Hc Hv. eexists. split.
  - unfold filter_data. rewrite !has_col_Ok by done. simpl. reflexivity.
  - assert (filter (λ r, selected to_date d [] r = true) (erows df) = [])
      as ->.
    { induction (erows df) as [|r l IH]; [done|].
      rewrite filter_cons, IH. rewrite decide_False; [done|].
      unfold selected, isin. rewrite andb_true_iff, bool_decide_eq_true.
      intros [_ Hin]. by apply elem_of_nil in Hin. }
    split_and!; try done.
    unfold summarize, kpis, summary_table, vendor_stats, groupby. simpl.
    rewrite !has_col_Ok by done. simpl. done.
Qed.

Lemma nothing_selected_witness :
  ∃ df', filter_data keep_date enriched_two (Str "2024-01-01") [] = Ok df'
    ∧ erows df' = []
    ∧ summarize df'
      = Ok (MkSummaries (MkKpis 0 "0.0%" "0.0%" "0.0%" "nan%") [] [])
    ∧ adhoc_pie (erows df') = None
    ∧ cancel_pie (erows df') = None.
Proof. apply (nothing_selected keep_date enriched_two); decided. Defined.
